(** * Stock Undercover: browser client and reconstructed game engine

    A shallow embedding of the two client scripts of the repository
    (the game-room class [StockUndercoverGame] of
    [Game/static/js/game.js] and the lobby class [GameLobby]) together
    with the server-side engine that the specification reconstructs.

    JavaScript numbers are IEEE 754 binary64 values; they are modelled
    with the axiom-free [spec_float] of the standard library, so that
    [NaN], the two zeros and the infinities behave as they do in the
    browser. *)

From Stdlib Require Import ZArith QArith Qpower Qcanon Bool List Lia.
From Stdlib Require Import Ascii String.
From Stdlib Require Import SpecFloat.
From stdpp Require Import gmap strings list pretty.

Local Open Scope Z_scope.

(** ** JavaScript values *)

Module JS.

(** Number values: binary64. *)
Definition prec : Z := 53.
Definition emax : Z := 1024.

Definition jsnum : Type := spec_float.

Definition NaN : jsnum := S754_nan.
Definition pos_zero : jsnum := S754_zero false.
Definition neg_zero : jsnum := S754_zero true.
Definition pos_infinity : jsnum := S754_infinity false.
Definition neg_infinity : jsnum := S754_infinity true.

(** The Number value of an integer literal. *)
Definition num_of_Z (z : Z) : jsnum := binary_normalize prec emax z 0 false.

Definition is_nan (x : jsnum) : bool :=
  match x with S754_nan => true | _ => false end.

Definition is_pos_zero (x : jsnum) : bool :=
  match x with S754_zero false => true | _ => false end.

Definition is_neg_zero (x : jsnum) : bool :=
  match x with S754_zero true => true | _ => false end.

Definition is_zero (x : jsnum) : bool :=
  match x with S754_zero _ => true | _ => false end.

(** Finite and above zero, as a price is. *)
Definition is_positive (x : jsnum) : bool :=
  match x with S754_finite false _ _ => true | _ => false end.

(** Relational operators [<], [>], [<=]: false as soon as an operand
    is [NaN]. *)
Definition lt (x y : jsnum) : bool := SFltb x y.
Definition gt (x y : jsnum) : bool := SFltb y x.
Definition le (x y : jsnum) : bool := SFleb x y.

Definition sub (x y : jsnum) : jsnum := SFsub prec emax x y.
Definition div (x y : jsnum) : jsnum := SFdiv prec emax x y.
Definition mul (x y : jsnum) : jsnum := SFmul prec emax x y.

(** [Math.max(...args)] (ECMA-262, 21.3.2.24): start from -Infinity,
    return NaN at the first NaN, prefer +0 over -0, keep the
    greatest. *)
Fixpoint Math_max_from (highest : jsnum) (args : list jsnum) : jsnum :=
  match args with
  | [] => highest
  | number :: rest =>
      if is_nan number then NaN
      else
        let highest :=
          if is_pos_zero number && is_neg_zero highest then pos_zero
          else highest in
        let highest := if gt number highest then number else highest in
        Math_max_from highest rest
  end.

(** The number 100, written out: 100 = 7036874417766400 * 2^-46. *)
Definition hundred : jsnum := S754_finite false 7036874417766400 (-46).

Definition Math_max (args : list jsnum) : jsnum :=
  Math_max_from neg_infinity args.

(** [Math.min(...args)] (ECMA-262, 21.3.2.25), the mirror image. *)
Fixpoint Math_min_from (lowest : jsnum) (args : list jsnum) : jsnum :=
  match args with
  | [] => lowest
  | number :: rest =>
      if is_nan number then NaN
      else
        let lowest :=
          if is_neg_zero number && is_pos_zero lowest then neg_zero
          else lowest in
        let lowest := if lt number lowest then number else lowest in
        Math_min_from lowest rest
  end.

Definition Math_min (args : list jsnum) : jsnum :=
  Math_min_from pos_infinity args.

(** The rational denoted by a zero or finite number (0 for the
    others, which denote no rational). *)
Definition Q_of_num (x : jsnum) : Q :=
  match x with
  | S754_finite s m e =>
      let v := (inject_Z (Z.pos m) * Qpower 2 e)%Q in
      if s then Qopp v else v
  | _ => 0%Q
  end.

(** Language values that travel in event payloads.  [JBuiltin n]
    stands for the function or object that the standard library of
    the language stores under the name [n] (such as
    [Object.prototype.toString]). *)
Inductive jsval : Type :=
| JUndefined
| JNull
| JBool (b : bool)
| JNum (n : jsnum)
| JStr (s : string)
| JBuiltin (name : string).

(** [ToBoolean] (ECMA-262, 7.1.2). *)
Definition ToBoolean (v : jsval) : bool :=
  match v with
  | JUndefined | JNull => false
  | JBool b => b
  | JNum n =>
      match n with
      | S754_zero _ | S754_nan => false
      | _ => true
      end
  | JStr s => negb (String.eqb s "")
  | JBuiltin _ => true
  end.

(** Truthiness of a bare number and of a bare string, as used by
    [!amount] and [!stockSymbol]. *)
Definition truthy_num (n : jsnum) : bool := ToBoolean (JNum n).
Definition truthy_str (s : string) : bool := ToBoolean (JStr s).

End JS.

(** ** Built-in functions of the host

    [parseFloat], [parseInt], [String.prototype.trim] and the
    number-to-string conversion belong to the browser, not to the
    repository.  The client code below takes them as parameters, so
    every theorem about it holds for the real ones.  This module gives
    executable reference versions for byte strings (white space is the
    ASCII white space), used to run the client on concrete inputs. *)

Module Builtins.
Import JS.

Definition is_space (c : ascii) : bool :=
  let n := N_of_ascii c in
  ((9 <=? n)%N && (n <=? 13)%N) || (n =? 32)%N.

Fixpoint trim_start (s : string) : string :=
  match s with
  | String c rest => if is_space c then trim_start rest else s
  | EmptyString => EmptyString
  end.

Fixpoint trim_end (s : string) : string :=
  match s with
  | EmptyString => EmptyString
  | String c rest =>
      match trim_end rest with
      | EmptyString => if is_space c then EmptyString else String c EmptyString
      | rest' => String c rest'
      end
  end.

Definition trim (s : string) : string := trim_end (trim_start s).

Definition digit_of (radix : N) (c : ascii) : option N :=
  let n := N_of_ascii c in
  let d :=
    if (48 <=? n)%N && (n <=? 57)%N then Some (n - 48)%N
    else if (97 <=? n)%N && (n <=? 122)%N then Some (n - 87)%N
    else if (65 <=? n)%N && (n <=? 90)%N then Some (n - 55)%N
    else None in
  match d with
  | Some v => if (v <? radix)%N then Some v else None
  | None => None
  end.

(** Longest prefix of digits in the radix: its value, how many digits
    it has, and what follows it. *)
Fixpoint read_digits (radix : N) (acc : N) (count : nat) (s : string)
  : N * nat * string :=
  match s with
  | String c rest =>
      match digit_of radix c with
      | Some d => read_digits radix (acc * radix + d)%N (S count) rest
      | None => (acc, count, s)
      end
  | EmptyString => (acc, count, s)
  end.

Definition read_sign (s : string) : bool * string :=
  match s with
  | String "-" rest => (true, rest)
  | String "+" rest => (false, rest)
  | _ => (false, s)
  end.

(** [parseInt(string)] with no radix argument (ECMA-262, 19.2.5). *)
Definition parseInt (input : string) : jsnum :=
  let '(neg, s) := read_sign (trim_start input) in
  let '(radix, s) :=
    match s with
    | String "0" (String "x" rest) => (16%N, rest)
    | String "0" (String "X" rest) => (16%N, rest)
    | _ => (10%N, s)
    end in
  let '(value, count, _) := read_digits radix 0 0 s in
  match count with
  | O => NaN
  | _ =>
      if (value =? 0)%N then S754_zero neg
      else
        let z := Z.of_N value in
        binary_normalize prec emax (if neg then - z else z) 0 false
  end.

(** The Number value nearest to [m * 10 ^ e], ties to even. *)
Definition round_decimal (neg : bool) (m : N) (e : Z) : jsnum :=
  match m with
  | N0 => S754_zero neg
  | Npos p =>
      match e with
      | Zneg d =>
          let '(q, e', l) :=
            SFdiv_core_binary prec emax (Z.pos p) 0 (10 ^ Z.pos d) 0 in
          binary_round_aux prec emax neg q e' l
      | _ => binary_round prec emax neg (Z.to_pos (Z.pos p * 10 ^ e)) 0
      end
  end.

Definition starts_with (p s : string) : bool := String.prefix p s.

(** An [ExponentPart], when one is there: [e] or [E], an optional
    sign and at least one digit. *)
Definition read_exponent (s : string) : Z :=
  match s with
  | String c rest =>
      if (Ascii.eqb c "e" || Ascii.eqb c "E")%bool then
        let '(neg, rest) := read_sign rest in
        let '(value, count, _) := read_digits 10 0 0 rest in
        match count with
        | O => 0
        | _ => if neg then - Z.of_N value else Z.of_N value
        end
      else 0
  | EmptyString => 0
  end.

(** [parseFloat(string)] (ECMA-262, 19.2.4): the longest prefix that
    is a [StrDecimalLiteral], or NaN. *)
Definition parseFloat (input : string) : jsnum :=
  let '(neg, s) := read_sign (trim_start input) in
  if starts_with "Infinity" s then S754_infinity neg
  else
    let '(int_part, int_count, s) := read_digits 10 0 0 s in
    let '(mantissa, frac_count, s) :=
      match s with
      | String "." rest =>
          let '(m, k, rest') := read_digits 10 int_part 0 rest in
          match int_count, k with
          | O, O => (int_part, O, s)
          | _, _ => (m, k, rest')
          end
      | _ => (int_part, O, s)
      end in
    match int_count, frac_count with
    | O, O => NaN
    | _, _ => round_decimal neg mantissa (read_exponent s - Z.of_nat frac_count)
    end.

(** Decimal digits of [n], left-padded with zeros to [width]. *)
Definition digits_padded (width : nat) (n : N) : string :=
  let d := pretty n in
  String.concat "" (repeat "0" (width - String.length d)) +:+ d.

Fixpoint drop_trailing_zeros (s : string) : string :=
  match s with
  | EmptyString => EmptyString
  | String c rest =>
      match drop_trailing_zeros rest with
      | EmptyString => if Ascii.eqb c "0" then EmptyString else String c EmptyString
      | rest' => String c rest'
      end
  end.

(** Number to string, by the exact decimal expansion of the value.
    It is what [Number::toString] gives for the integers below 2^53
    and for the fractions with a short expansion (0.5, 12.25); for
    other values the language prints the shortest digits that read
    back as the same number. *)
Definition NumberToString (x : jsnum) : string :=
  match x with
  | S754_nan => "NaN"
  | S754_zero _ => "0"
  | S754_infinity s => if s then "-Infinity" else "Infinity"
  | S754_finite s m e =>
      let sign := if s then "-" else "" in
      match e with
      | Zneg d =>
          let den := (2 ^ N.pos d)%N in
          let whole := (N.pos m / den)%N in
          let frac := (N.pos m mod den)%N in
          let digits :=
            drop_trailing_zeros
              (digits_padded (Pos.to_nat d) (frac * 5 ^ N.pos d)%N) in
          match digits with
          | EmptyString => sign +:+ pretty whole
          | _ => sign +:+ pretty whole +:+ "." +:+ digits
          end
      | _ => sign +:+ pretty (N.pos m * 2 ^ Z.to_N e)%N
      end
  end.

End Builtins.

(** ** What the scripts do to the outside world *)

Module Effects.
Import JS.

(** An object literal: its own properties, in source order. *)
Definition obj : Type := list (string * jsval).

Inductive effect : Type :=
| Emit (event : string) (data : obj)          (* socket.emit(event, data) *)
| Notify (message : string) (type : string)   (* showNotification(message, type) *)
| Fetch (url : string) (method : string) (body : obj).  (* fetch(url, {method, body}) *)

Definition keys (o : obj) : list string := map fst o.

(** The field names of an invest message. *)
Definition invest_fields : list string :=
  ["game_id"; "stock_symbol"; "amount"; "action"].

Fixpoint get (o : obj) (key : string) : option jsval :=
  match o with
  | [] => None
  | (k, v) :: rest => if String.eqb k key then Some v else get rest key
  end.

Definition is_fetch (e : effect) : bool :=
  match e with
  | Fetch _ _ _ => true
  | _ => false
  end.

(** [null] or a string, as [selectedCard] and [selectedTarget] are. *)
Definition of_nullable (o : option string) : jsval :=
  match o with
  | Some s => JStr s
  | None => JNull
  end.

End Effects.

(** ** The game-room script: class [StockUndercoverGame] *)

Module Game.
Import JS Effects.

(** The double-quote character, for the attribute values of the
    generated markup. *)
Definition dq : string := String (ascii_of_nat 34) EmptyString.

(** An element of class [card-item] or [player-item]: the id in its
    [dataset] and whether it carries the class [selected]. *)
Record item : Type := Item { item_id : string; item_selected : bool }.

(** The fields of the object and the form controls it reads and
    writes. *)
Record game : Type := StockUndercoverGame {
  gameId : string;
  selectedStock : option string;
  selectedCard : option string;
  selectedTarget : option string;
  stock_select : string;        (* value of #stock-select *)
  invest_amount : string;       (* value of #invest-amount *)
  sell_amount : string;         (* value of #sell-amount *)
  message_input : string;       (* value of #message-input *)
  card_items : list item;       (* the .card-item elements *)
  player_items : list item      (* the .player-item elements *)
}.

(** Payload of the [*_result] events. *)
Record result_data : Type := ResultData { success : jsval; message : string }.

(** A stock of the snapshot, as far as the script reads it;
    [price_history] is [None] when the property is absent or null. *)
Record stock : Type := Stock {
  symbol : string;
  name : string;
  current_price : jsnum;
  price_history : option (list jsnum)
}.

Definition set_invest_form (g : game) (invest sell : string) : game :=
  StockUndercoverGame (gameId g) (selectedStock g) (selectedCard g)
    (selectedTarget g) (stock_select g) invest sell (message_input g)
    (card_items g) (player_items g).

Definition set_message_input (g : game) (v : string) : game :=
  StockUndercoverGame (gameId g) (selectedStock g) (selectedCard g)
    (selectedTarget g) (stock_select g) (invest_amount g) (sell_amount g) v
    (card_items g) (player_items g).

Definition set_stock_select (g : game) (v : string) : game :=
  StockUndercoverGame (gameId g) (selectedStock g) (selectedCard g)
    (selectedTarget g) v (invest_amount g) (sell_amount g) (message_input g)
    (card_items g) (player_items g).

Definition set_selectedStock (g : game) (v : option string) : game :=
  StockUndercoverGame (gameId g) v (selectedCard g)
    (selectedTarget g) (stock_select g) (invest_amount g) (sell_amount g)
    (message_input g) (card_items g) (player_items g).

Definition set_cards (g : game) (sel : option string) (cards : list item) : game :=
  StockUndercoverGame (gameId g) (selectedStock g) sel
    (selectedTarget g) (stock_select g) (invest_amount g) (sell_amount g)
    (message_input g) cards (player_items g).

Definition set_players (g : game) (sel : option string) (players : list item) : game :=
  StockUndercoverGame (gameId g) (selectedStock g) (selectedCard g)
    sel (stock_select g) (invest_amount g) (sell_amount g)
    (message_input g) (card_items g) players.

(** [classList.remove('selected')] on every element, then
    [classList.add('selected')] on the clicked one. *)
Definition deselect_all (l : list item) : list item :=
  map (fun it => Item (item_id it) false) l.

Definition select_at (i : nat) (l : list item) : list item :=
  match l !! i with
  | Some it => <[i := Item (item_id it) true]> (deselect_all l)
  | None => deselect_all l
  end.

Definition truthy_nullable (o : option string) : bool :=
  ToBoolean (of_nullable o).

Section Methods.
Variable parseFloat : string -> jsnum.
Variable trim : string -> string.
Variable NumberToString : jsnum -> string.

(** [initializeSocket]: the one message sent while the listeners
    are installed. *)
Definition initializeSocket (g : game) : list effect :=
  [Emit "join_game" [("game_id", JStr (gameId g))]].

Definition constructor (id : string) : game * list effect :=
  let g := StockUndercoverGame id None None None "" "" "" "" [] [] in
  (g, initializeSocket g).

Definition clearInvestmentForm (g : game) : game :=
  set_invest_form g "" "".

Definition clearCardSelection (g : game) : game :=
  set_cards g None (deselect_all (card_items g)).

Definition result_type (data : result_data) : string :=
  if ToBoolean (success data) then "success" else "error".

(** Listener of [investment_result]. *)
Definition on_investment_result (g : game) (data : result_data)
  : game * list effect :=
  let out := [Notify (message data) (result_type data)] in
  if ToBoolean (success data) then (clearInvestmentForm g, out)
  else (g, out).

(** Listener of [card_use_result]. *)
Definition on_card_use_result (g : game) (data : result_data)
  : game * list effect :=
  let out := [Notify (message data) (result_type data)] in
  if ToBoolean (success data) then (clearCardSelection g, out)
  else (g, out).

(** Listener of [vote_result]. *)
Definition on_vote_result (g : game) (data : result_data)
  : game * list effect :=
  (g, [Notify (message data) (result_type data)]).

Definition makeInvestment (g : game) : list effect :=
  let stockSymbol := stock_select g in
  let amount := parseFloat (invest_amount g) in
  if negb (truthy_str stockSymbol) then
    [Notify "请选择股票" "warning"]
  else if negb (truthy_num amount) || le amount pos_zero then
    [Notify "请输入有效的投资金额" "warning"]
  else
    [Emit "invest"
       [("game_id", JStr (gameId g));
        ("stock_symbol", JStr stockSymbol);
        ("amount", JNum amount);
        ("action", JStr "buy")]].

Definition sellStock (g : game) : list effect :=
  let stockSymbol := stock_select g in
  let amount := parseFloat (sell_amount g) in
  if negb (truthy_str stockSymbol) then
    [Notify "请选择股票" "warning"]
  else if negb (truthy_num amount) || le amount pos_zero then
    [Notify "请输入有效的卖出数量" "warning"]
  else
    [Emit "invest"
       [("game_id", JStr (gameId g));
        ("stock_symbol", JStr stockSymbol);
        ("amount", JNum amount);
        ("action", JStr "sell")]].

Definition useCard (g : game) : list effect :=
  if negb (truthy_nullable (selectedCard g)) then
    [Notify "请选择要使用的卡牌" "warning"]
  else
    [Emit "use_card"
       [("game_id", JStr (gameId g));
        ("card_id", of_nullable (selectedCard g));
        ("target_player_id", of_nullable (selectedTarget g))]].

Definition sendMessage (g : game) : game * list effect :=
  let message := trim (message_input g) in
  if negb (truthy_str message) then (g, [])
  else
    (set_message_input g "",
     [Emit "send_message"
        [("game_id", JStr (gameId g)); ("message", JStr message)]]).

Definition vote (g : game) : list effect :=
  if negb (truthy_nullable (selectedTarget g)) then
    [Notify "请选择投票目标" "warning"]
  else
    [Emit "vote"
       [("game_id", JStr (gameId g));
        ("target_player_id", of_nullable (selectedTarget g))]].

Definition nextPhase (g : game) : list effect :=
  [Emit "next_phase" [("game_id", JStr (gameId g))]].

Definition selectCard (g : game) (i : nat) : game :=
  match card_items g !! i with
  | Some it => set_cards g (Some (item_id it)) (select_at i (card_items g))
  | None => g
  end.

Definition selectPlayer (g : game) (i : nat) : game :=
  match player_items g !! i with
  | Some it => set_players g (Some (item_id it)) (select_at i (player_items g))
  | None => g
  end.

Definition calculatePriceChange (s : stock) : jsnum :=
  match price_history s with
  | None => pos_zero
  | Some history =>
      if (length history <? 2)%nat then pos_zero
      else
        let currentPrice := current_price s in
        match history !! (length history - 2)%nat with
        | Some previousPrice =>
            mul (div (sub currentPrice previousPrice) previousPrice)
                (num_of_Z 100)
        | None => NaN
        end
  end.

Definition createSuspicionBar (level : jsnum) : string :=
  let percentage := Math_min [num_of_Z 100; Math_max [num_of_Z 0; level]] in
  "<div class=" +:+ dq +:+ "progress-bar suspicion" +:+ dq
    +:+ "><div class=" +:+ dq +:+ "progress-fill" +:+ dq
    +:+ " style=" +:+ dq +:+ "width: " +:+ NumberToString percentage
    +:+ "%" +:+ dq +:+ "></div></div>".

Definition createTrustBar (level : jsnum) : string :=
  let percentage := Math_min [num_of_Z 100; Math_max [num_of_Z 0; level]] in
  "<div class=" +:+ dq +:+ "progress-bar trust" +:+ dq
    +:+ "><div class=" +:+ dq +:+ "progress-fill" +:+ dq
    +:+ " style=" +:+ dq +:+ "width: " +:+ NumberToString percentage
    +:+ "%" +:+ dq +:+ "></div></div>".

(** The properties every object literal inherits from
    [Object.prototype]; all of them are functions or objects. *)
Definition object_prototype : obj :=
  [("constructor", JBuiltin "Object");
   ("__defineGetter__", JBuiltin "Object.prototype.__defineGetter__");
   ("__defineSetter__", JBuiltin "Object.prototype.__defineSetter__");
   ("hasOwnProperty", JBuiltin "Object.prototype.hasOwnProperty");
   ("__lookupGetter__", JBuiltin "Object.prototype.__lookupGetter__");
   ("__lookupSetter__", JBuiltin "Object.prototype.__lookupSetter__");
   ("isPrototypeOf", JBuiltin "Object.prototype.isPrototypeOf");
   ("propertyIsEnumerable", JBuiltin "Object.prototype.propertyIsEnumerable");
   ("toString", JBuiltin "Object.prototype.toString");
   ("valueOf", JBuiltin "Object.prototype.valueOf");
   ("__proto__", JBuiltin "Object.prototype");
   ("toLocaleString", JBuiltin "Object.prototype.toLocaleString")].

(** [o[key]] for an object literal [o]: an own property first, then
    the prototype, else [undefined]. *)
Definition get_property (o : obj) (key : string) : jsval :=
  match get o key with
  | Some v => v
  | None =>
      match get object_prototype key with
      | Some v => v
      | None => JUndefined
      end
  end.

(** [a || b]. *)
Definition or_else (a b : jsval) : jsval :=
  if ToBoolean a then a else b.

Definition phaseTexts : obj :=
  [("waiting", JStr "等待开始");
   ("investment", JStr "投资阶段");
   ("discussion", JStr "讨论阶段");
   ("voting", JStr "投票阶段");
   ("game_end", JStr "游戏结束")].

Definition getPhaseText (phase : string) : jsval :=
  or_else (get_property phaseTexts phase) (JStr phase).

(** *** The listeners, as one transition function *)

(** What can happen to the page: the user edits a form control,
    clicks a button, a card or a player, presses a key in the
    message box, or the server answers a command.  The listeners of
    [game_state_update], [new_message], [phase_change] and
    [game_end] only redraw the page and send nothing; they are not
    part of this model. *)
Inductive ui_event : Type :=
| Input_stock_select (v : string)
| Input_invest_amount (v : string)
| Input_sell_amount (v : string)
| Input_message (v : string)
| Change_stock_select (v : string)
| Click_invest
| Click_sell
| Click_use_card
| Click_send_message
| Click_vote
| Click_next_phase
| Keypress_message (key : string)
| Click_card (i : nat)
| Click_player (i : nat)
| Recv_investment_result (data : result_data)
| Recv_card_use_result (data : result_data)
| Recv_vote_result (data : result_data).

Definition step (g : game) (ev : ui_event) : game * list effect :=
  match ev with
  | Input_stock_select v => (set_stock_select g v, [])
  | Input_invest_amount v => (set_invest_form g v (sell_amount g), [])
  | Input_sell_amount v => (set_invest_form g (invest_amount g) v, [])
  | Input_message v => (set_message_input g v, [])
  | Change_stock_select v => (set_selectedStock g (Some v), [])
  | Click_invest => (g, makeInvestment g)
  | Click_sell => (g, sellStock g)
  | Click_use_card => (g, useCard g)
  | Click_send_message => sendMessage g
  | Click_vote => (g, vote g)
  | Click_next_phase => (g, nextPhase g)
  | Keypress_message key =>
      if String.eqb key "Enter" then sendMessage g else (g, [])
  | Click_card i => (selectCard g i, [])
  | Click_player i => (selectPlayer g i, [])
  | Recv_investment_result data => on_investment_result g data
  | Recv_card_use_result data => on_card_use_result g data
  | Recv_vote_result data => on_vote_result g data
  end.

(** A session: the events in order, the effects in order. *)
Fixpoint run (g : game) (evs : list ui_event) : game * list effect :=
  match evs with
  | [] => (g, [])
  | ev :: rest =>
      let '(g1, out1) := step g ev in
      let '(g2, out2) := run g1 rest in
      (g2, out1 ++ out2)
  end.

(** A page load followed by a session. *)
Definition session (id : string) (evs : list ui_event) : game * list effect :=
  let '(g0, out0) := constructor id in
  let '(g, out) := run g0 evs in
  (g, out0 ++ out).

End Methods.
End Game.

(** ** The lobby script: class [GameLobby] *)

Module Lobby.
Import JS Effects.

(** The form controls the lobby reads. *)
Record lobby : Type := GameLobby {
  create_player_name : string;   (* value of #create-player-name *)
  max_players : string;          (* value of #max-players *)
  join_player_name : string;     (* value of #join-player-name *)
  game_id : string               (* value of #game-id *)
}.

Section Methods.
Variable parseInt : string -> jsnum.
Variable trim : string -> string.

(** [createGame], up to the request; what follows the [await] is
    the handling of the answer. *)
Definition createGame (l : lobby) : list effect :=
  let playerName := trim (create_player_name l) in
  let maxPlayers := parseInt (max_players l) in
  if negb (truthy_str playerName) then
    [Notify "请输入玩家名称" "warning"]
  else if lt maxPlayers (num_of_Z 3) || gt maxPlayers (num_of_Z 8) then
    [Notify "玩家数量必须在3-8人之间" "warning"]
  else
    [Fetch "/api/create_game" "POST"
       [("player_name", JStr playerName);
        ("max_players", JNum maxPlayers)]].

Definition joinGame (l : lobby) : list effect :=
  let playerName := trim (join_player_name l) in
  let gameId := trim (game_id l) in
  if negb (truthy_str playerName) then
    [Notify "请输入玩家名称" "warning"]
  else if negb (truthy_str gameId) then
    [Notify "请输入游戏ID" "warning"]
  else
    [Fetch "/api/join_game" "POST"
       [("player_name", JStr playerName);
        ("game_id", JStr gameId)]].

End Methods.
End Lobby.

(** ** The game engine behind the socket

    The scripts above only send commands; the engine that executes them
    runs on the server and is not among the given sources.  The
    definitions of this module follow the specification's description
    of it (sections 3, 4 and 7). *)

Module Engine.

(** Modelled from the spec: the server-side phase enumeration
    (section 4.1, glossary); the engine's code is missing from the
    sources. *)
Inductive phase : Type :=
| waiting | investment | discussion | voting | game_end.

(** Modelled from the spec: the server-side failure descriptors
    (section 7 for [NotFoundError] and [StateError], section 4.2 for
    the two resource errors, section 4.5 for [InvalidPhase]). *)
Inductive error : Type :=
| NotFoundError
| StateError
| InsufficientFunds
| InsufficientHoldings
| InvalidPhase.

(** Modelled from the spec: the outcome of a server-side command, a
    value or one of the failure descriptors of section 7 ("the engine
    returns a structured failure descriptor"). *)
Inductive result (A : Type) : Type :=
| Ok (a : A)
| Err (e : error).
Arguments Ok {A} a.
Arguments Err {A} e.

(** Modelled from the spec: the [action] parameter of the server-side
    invest command (section 6: "action ∈ {buy, sell}"). *)
Inductive action : Type := buy_action | sell_action.

(** Modelled from the spec: the server-side Player record (section
    3): money is a decimal, a holding is a non-negative integer per
    stock symbol. *)
Record Player : Type := mkPlayer {
  id : string;
  money : Qc;
  stocks : gmap string nat;
  is_alive : bool
}.

(** Modelled from the spec: the server-side Stock record (section
    3). *)
Record Stock : Type := mkStock {
  symbol : string;
  current_price : Qc;
  price_history : list Qc;
  volume : nat
}.

(** Modelled from the spec: the server-side Game record (section 3);
    [votes] maps a target player id to the set of voter ids. *)
Record Game : Type := mkGame {
  players : list Player;
  current_phase : phase;
  round : nat;
  stock_market : gmap string Stock;
  votes : gmap string (gset string)
}.

(** Modelled from the spec: equality test on the server-side phases of
    section 4.1, for the phase checks of the commands. *)
Definition phase_eqb (a b : phase) : bool :=
  match a, b with
  | waiting, waiting | investment, investment | discussion, discussion
  | voting, voting | game_end, game_end => true
  | _, _ => false
  end.

(** Modelled from the spec: a share count as a decimal, for the
    product [amount * current_price] of the server-side StockMarket
    (section 4.2). *)
Definition quantity (amount : nat) : Qc := Q2Qc (inject_Z (Z.of_nat amount)).

(** Modelled from the spec: [player.holdings[symbol]] of the
    server-side StockMarket (section 4.2); a stock never bought is held
    zero times. *)
Definition holding (p : Player) (sym : string) : nat :=
  default 0%nat (stocks p !! sym).

(** Modelled from the spec: StockMarket.buy of section 4.2 ("fails
    with InsufficientFunds if amount * current_price > player.money;
    otherwise debits money, credits holding, records the order for
    volume aggregation"). *)
Definition buy (p : Player) (s : Stock) (amount : nat) : result (Player * Stock) :=
  let cost := (quantity amount * current_price s)%Qc in
  if Qle_bool cost (money p) then
    Ok (mkPlayer (id p) (money p - cost)%Qc
          (<[symbol s := (holding p (symbol s) + amount)%nat]> (stocks p))
          (is_alive p),
        mkStock (symbol s) (current_price s) (price_history s)
          (volume s + amount)%nat)
  else Err InsufficientFunds.

(** Modelled from the spec: StockMarket.sell of section 4.2 ("fails
    with InsufficientHoldings if amount > player.holdings[symbol];
    otherwise credits money at current_price, debits holding"). *)
Definition sell (p : Player) (s : Stock) (amount : nat) : result (Player * Stock) :=
  if (amount <=? holding p (symbol s))%nat then
    Ok (mkPlayer (id p) (money p + quantity amount * current_price s)%Qc
          (<[symbol s := (holding p (symbol s) - amount)%nat]> (stocks p))
          (is_alive p),
        s)
  else Err InsufficientHoldings.

(** Modelled from the spec: the server-side lookup of the acting
    player among the players of the game (section 4.1: "actor not a
    recognized player"). *)
Definition find_player (actor : string) (ps : list Player) : option Player :=
  List.find (fun p => String.eqb (id p) actor) ps.

(** Modelled from the spec: the server-side PlayerRegistry write-back
    of a player record (section 4.3), in place in the ordered sequence
    of players. *)
Definition replace_player (p' : Player) (ps : list Player) : list Player :=
  map (fun p => if String.eqb (id p) (id p') then p' else p) ps.

(** Modelled from the spec: the invest command of the
    GamePhaseMachine (sections 4.1 and 6): rejected without any
    mutation when the actor is not a player of the game or when the
    phase is not the investment phase, otherwise delegated to the
    StockMarket. *)
Definition invest (g : Game) (actor sym : string) (amount : nat) (a : action)
  : Game * result unit :=
  match find_player actor (players g) with
  | None => (g, Err NotFoundError)
  | Some p =>
      if negb (phase_eqb (current_phase g) investment) then (g, Err StateError)
      else
        match stock_market g !! sym with
        | None => (g, Err NotFoundError)
        | Some s =>
            match (match a with
                   | buy_action => buy p s amount
                   | sell_action => sell p s amount
                   end) with
            | Err e => (g, Err e)
            | Ok (p', s') =>
                (mkGame (replace_player p' (players g)) (current_phase g)
                   (round g) (<[sym := s']> (stock_market g)) (votes g),
                 Ok tt)
            end
        end
  end.

(** Modelled from the spec: the command boundary of section 6, where
    the game is looked up by id first ("game not found"). *)
Definition invest_command (games : gmap string Game) (game_id actor sym : string)
    (amount : nat) (a : action) : gmap string Game * result unit :=
  match games !! game_id with
  | None => (games, Err NotFoundError)
  | Some g =>
      let '(g', r) := invest g actor sym amount a in
      (<[game_id := g']> games, r)
  end.

(** *** VoteTally *)

(** Modelled from the spec: the set of voter ids the server-side vote
    mapping holds for a target (section 3); no entry means no vote. *)
Definition voters (tally : gmap string (gset string)) (target : string)
  : gset string :=
  default ∅ (tally !! target).

(** Modelled from the spec: the number of votes the server-side tally
    holds against a target at phase close (section 4.5). *)
Definition count (tally : gmap string (gset string)) (target : string) : nat :=
  size (voters tally target).

(** Modelled from the spec: how many targets of the server-side tally
    a voter is counted against (section 3: "one active vote per
    voter"). *)
Definition times_counted (voter : string) (tally : gmap string (gset string))
  : nat :=
  size (filter (fun kv => voter ∈ kv.2) tally).

(** Modelled from the spec: the removal of a voter's prior vote from
    the server-side vote mapping (section 4.5: "overwrites any prior
    vote by the same voter"). *)
Definition retract (voter : string) (tally : gmap string (gset string))
  : gmap string (gset string) :=
  (fun s => s ∖ {[voter]}) <$> tally.

(** Modelled from the spec: VoteTally.cast of section 4.5
    ("overwrites any prior vote by the same voter; fails with
    InvalidPhase if called outside voting"), on the vote mapping of
    the Game record. *)
Definition cast (ph : phase) (tally : gmap string (gset string))
    (voter target : string) : result (gmap string (gset string)) :=
  if phase_eqb ph voting then
    let others := retract voter tally in
    Ok (<[target := {[voter]} ∪ voters others target]> others)
  else Err InvalidPhase.

(** Modelled from the spec: the ballots of one voting phase, cast in
    order through the server-side VoteTally.cast (section 4.5); the
    commands of one game are serialised (section 5). *)
Fixpoint cast_all (ph : phase) (tally : gmap string (gset string))
    (ballots : list (string * string)) : result (gmap string (gset string)) :=
  match ballots with
  | [] => Ok tally
  | (voter, target) :: rest =>
      match cast ph tally voter target with
      | Ok tally' => cast_all ph tally' rest
      | Err e => Err e
      end
  end.

End Engine.

(** ** The game-room script: what it draws *)

Module View.
Import JS Effects.

Definition typeTexts : obj :=
  [("market_news", JStr "市场新闻");
   ("event_crisis", JStr "事件危机");
   ("role_interaction", JStr "角色互动");
   ("undercover_special", JStr "卧底专属");
   ("family_split", JStr "家族撕裂");
   ("conspiracy_trap", JStr "阴谋陷阱");
   ("public_opinion", JStr "舆论风暴")].

Definition getCardTypeText (type : string) : jsval :=
  Game.or_else (Game.get_property typeTexts type) (JStr type).

Definition rarityTexts : obj :=
  [("common", JStr "普通");
   ("rare", JStr "稀有");
   ("epic", JStr "史诗");
   ("legendary", JStr "传说")].

Definition getCardRarityText (rarity : string) : jsval :=
  Game.or_else (Game.get_property rarityTexts rarity) (JStr rarity).

(** The class of the price change of a stock row, as [updateStockMarket]
    computes it from [calculatePriceChange]. *)
Definition changeClass (s : Game.stock) : string :=
  let priceChange := Game.calculatePriceChange s in
  if gt priceChange (num_of_Z 0) then "positive"
  else if lt priceChange (num_of_Z 0) then "negative"
  else "neutral".

(** The sign [updateStockMarket] writes before the change. *)
Definition changePrefix (s : Game.stock) : string :=
  let priceChange := Game.calculatePriceChange s in
  if gt priceChange (num_of_Z 0) then "+" else "".

(** A card and a player of the snapshot, as far as the script reads
    them here; [cards] is [None] when the property is absent. *)
Record card : Type := Card { card_id : string; card_name : string }.

Record player : Type := Player {
  player_id : string;
  player_name : string;
  cards : option (list card)
}.

(** [getCurrentPlayer], on the snapshot's players ([None] while no
    snapshot has arrived) and the [playerId] field. *)
Definition getCurrentPlayer (gameState : option (list player))
    (playerId : option string) : option player :=
  match gameState with
  | None => None
  | Some players =>
      if negb (Game.truthy_nullable playerId) then None
      else find (fun p => String.eqb (player_id p) (default "" playerId)) players
  end.

(** [updateCards]: the card elements are rebuilt from the cards of the
    current player, none of them with the class [selected]. *)
Definition updateCards (g : Game.game) (gameState : option (list player))
    (playerId : option string) : Game.game :=
  match getCurrentPlayer gameState playerId with
  | None => Game.set_cards g (Game.selectedCard g) []
  | Some currentPlayer =>
      match cards currentPlayer with
      | None => Game.set_cards g (Game.selectedCard g) []
      | Some hand =>
          Game.set_cards g (Game.selectedCard g)
            (map (fun c => Game.Item (card_id c) false) hand)
      end
  end.

(** The events whose listener writes [selectedTarget], and those whose
    listener writes [selectedCard]. *)
Definition is_player_click (ev : Game.ui_event) : bool :=
  match ev with
  | Game.Click_player _ => true
  | _ => false
  end.

Definition touches_card_selection (ev : Game.ui_event) : bool :=
  match ev with
  | Game.Click_card _ | Game.Recv_card_use_result _ => true
  | _ => false
  end.

(** Whether a number carries the given sign bit (NaN carries none). *)
Definition sign_is (s : bool) (x : jsnum) : bool :=
  match x with
  | S754_zero s' | S754_infinity s' | S754_finite s' _ _ => Bool.eqb s' s
  | S754_nan => false
  end.



End View.

(** ** Proof helpers *)

Ltac split_ifs :=
  repeat match goal with
         | |- context [if ?b then _ else _] => destruct b
         | H : context [if ?b then _ else _] |- _ => destruct b
         end.

Ltac in_cases H :=
  repeat (cbn [In app snd fst] in H;
          match type of H with
          | _ \/ _ => destruct H as [H | H]
          | False => destruct H
          end).

Ltac step_cases :=
  cbn [Game.step fst snd];
  unfold Game.sendMessage, Game.selectCard, Game.selectPlayer,
    Game.on_investment_result, Game.on_card_use_result, Game.on_vote_result;
  repeat match goal with
         | |- context [if ?b then _ else _] => destruct b
         | |- context [match ?l !! ?i with _ => _ end] => destruct (l !! i)
         end;
  cbn.

(** * Properties *)

Import JS Effects.

(** ** Numbers *)

Lemma num_of_Z_100 : num_of_Z 100 = hundred.
Proof. vm_compute. reflexivity. Qed.

Lemma num_of_Z_0 : num_of_Z 0 = pos_zero.
Proof. reflexivity. Qed.

(** The clamp of the two progress bars, case by case. *)
Lemma clamp_cases (level : jsnum) :
  Math_min [num_of_Z 100; Math_max [num_of_Z 0; level]] =
  if is_nan level then NaN
  else if gt level pos_zero then
         if lt level hundred then level else hundred
       else pos_zero.
Proof.
  rewrite num_of_Z_100, num_of_Z_0.
  destruct level as [s | s | | s m e]; try destruct s; reflexivity.
Qed.

(** For NaN, and so for a level that is missing from the snapshot, the
    clamp is NaN. *)
Lemma clamp_of_NaN :
  Math_min [num_of_Z 100; Math_max [num_of_Z 0; NaN]] = NaN.
Proof. reflexivity. Qed.

Lemma digits2_pos_bound (m : positive) :
  Z.pos m < 2 ^ Z.pos (digits2_pos m).
Proof.
  induction m as [p IH | p IH |]; cbn [digits2_pos].
  - rewrite Pos2Z.inj_succ, Z.pow_succ_r by lia. lia.
  - rewrite Pos2Z.inj_succ, Z.pow_succ_r by lia. lia.
  - reflexivity.
Qed.

(** The mantissa of a binary64 value has at most 53 bits. *)
Lemma valid_binary_mantissa (s : bool) (m : positive) (e : Z) :
  valid_binary prec emax (S754_finite s m e) = true -> Z.pos m < 2 ^ 53.
Proof.
  unfold valid_binary, bounded, canonical_mantissa, fexp, emin, prec, emax.
  intros H. apply andb_prop in H as [H _]. apply Z.eqb_eq in H.
  pose proof (digits2_pos_bound m) as Hm.
  assert (Hd : Z.pos (digits2_pos m) <= 53) by lia.
  eapply Z.lt_le_trans; [exact Hm |].
  apply Z.pow_le_mono_r; lia.
Qed.

Lemma Q_of_finite_le (m : positive) (e c : Z) :
  e < 0 -> Z.pos m <= c * 2 ^ (- e) ->
  (inject_Z (Z.pos m) * Qpower 2 e <= inject_Z c)%Q.
Proof.
  intros He Hm.
  assert (Hp : (Qpower 2 e == / inject_Z (2 ^ (- e)))%Q).
  { rewrite Zpower_Qpower by lia.
    replace e with (- - e) at 1 by lia. apply Qpower_opp. }
  rewrite Hp.
  apply Qle_shift_div_r.
  - change 0%Q with (inject_Z 0). rewrite <- Zlt_Qlt.
    apply Z.pow_pos_nonneg; lia.
  - rewrite <- inject_Z_mult, <- Zle_Qle. exact Hm.
Qed.

Lemma Q_of_finite_nonneg (m : positive) (e : Z) :
  (0 <= inject_Z (Z.pos m) * Qpower 2 e)%Q.
Proof.
  apply Qmult_le_0_compat.
  - change 0%Q with (inject_Z 0). rewrite <- Zle_Qle. lia.
  - apply Qpower_0_le. discriminate.
Qed.

(** A positive binary64 value that compares below 100 denotes a
    rational below 100. *)
Lemma lt_hundred_sound (m : positive) (e : Z) :
  Z.pos m < 2 ^ 53 ->
  lt (S754_finite false m e) hundred = true ->
  (Q_of_num (S754_finite false m e) <= 100)%Q.
Proof.
  intros Hm H.
  change (2 ^ 53) with 9007199254740992 in Hm.
  unfold lt, SFltb, hundred in H. cbn [SFcompare] in H.
  cbn [Q_of_num]. change 100%Q with (inject_Z 100).
  destruct (Z.compare_spec e (-46)) as [He | He | He]; try discriminate H.
  - subst e.
    destruct (Pos.compare_cont Eq m 7036874417766400) eqn:Hc; try discriminate H.
    pose proof (proj1 (Pos.compare_lt_iff m 7036874417766400) Hc) as Hlt.
    apply Pos2Z.pos_lt_pos in Hlt. clear H Hc.
    apply Q_of_finite_le; [reflexivity |].
    change (2 ^ (- -46)) with 70368744177664. lia.
  - clear H. apply Q_of_finite_le; [lia |].
    assert (H0 : 2 ^ 47 <= 2 ^ (- e)) by (apply Z.pow_le_mono_r; lia).
    change (2 ^ 47) with 140737488355328 in H0. lia.
Qed.

(** ** The progress bars *)

(** C1. For every level that is a number (any binary64 value but NaN:
    negative, above 100, the zeros, the infinities), the suspicion bar
    and the trust bar embed as width the value
    [Math.min(100, Math.max(0, level))]; that value compares between 0
    and 100, denotes a rational of [0, 100], and is 0 for a level that
    is not above 0, the level itself between 0 and 100, and 100 from
    100 on. *)
Theorem bars_embed_clamped_level
    (NumberToString : jsnum -> string) (level : jsnum) :
  is_nan level = false ->
  valid_binary prec emax level = true ->
  exists percentage : jsnum,
    percentage = Math_min [num_of_Z 100; Math_max [num_of_Z 0; level]] /\
    Game.createSuspicionBar NumberToString level =
      "<div class=" +:+ Game.dq +:+ "progress-bar suspicion" +:+ Game.dq
        +:+ "><div class=" +:+ Game.dq +:+ "progress-fill" +:+ Game.dq
        +:+ " style=" +:+ Game.dq +:+ "width: " +:+ NumberToString percentage
        +:+ "%" +:+ Game.dq +:+ "></div></div>" /\
    Game.createTrustBar NumberToString level =
      "<div class=" +:+ Game.dq +:+ "progress-bar trust" +:+ Game.dq
        +:+ "><div class=" +:+ Game.dq +:+ "progress-fill" +:+ Game.dq
        +:+ " style=" +:+ Game.dq +:+ "width: " +:+ NumberToString percentage
        +:+ "%" +:+ Game.dq +:+ "></div></div>" /\
    le (num_of_Z 0) percentage = true /\
    le percentage (num_of_Z 100) = true /\
    (0 <= Q_of_num percentage)%Q /\ (Q_of_num percentage <= 100)%Q /\
    (gt level (num_of_Z 0) = false -> percentage = num_of_Z 0) /\
    (gt level (num_of_Z 0) = true -> lt level (num_of_Z 100) = true ->
     percentage = level) /\
    (lt level (num_of_Z 100) = false -> gt level (num_of_Z 0) = true ->
     percentage = num_of_Z 100).
Proof.
  intros Hnan Hvalid.
  exists (Math_min [num_of_Z 100; Math_max [num_of_Z 0; level]]).
  split; [reflexivity |]. split; [reflexivity |]. split; [reflexivity |].
  rewrite clamp_cases, Hnan, num_of_Z_100, num_of_Z_0.
  destruct (gt level pos_zero) eqn:Hgt.
  - destruct (lt level hundred) eqn:Hlt.
    + destruct level as [s | s | | s m e]; try destruct s; try discriminate.
      pose proof (valid_binary_mantissa _ _ _ Hvalid) as Hm.
      repeat split; try reflexivity; try discriminate.
      * unfold lt, SFltb in Hlt. unfold le, SFleb.
        destruct (SFcompare (S754_finite false m e) hundred) as [[]|];
          try discriminate; reflexivity.
      * apply Q_of_finite_nonneg.
      * apply lt_hundred_sound; assumption.
    + repeat split; try reflexivity; try discriminate.
  - repeat split; try reflexivity; try discriminate.
Qed.

Lemma bars_embed_clamped_level_witness :
  is_nan (Builtins.parseFloat "150.5") = false /\
  valid_binary prec emax (Builtins.parseFloat "150.5") = true /\
  Game.createSuspicionBar Builtins.NumberToString (Builtins.parseFloat "150.5") =
    "<div class=" +:+ Game.dq +:+ "progress-bar suspicion" +:+ Game.dq
      +:+ "><div class=" +:+ Game.dq +:+ "progress-fill" +:+ Game.dq
      +:+ " style=" +:+ Game.dq +:+ "width: 100%" +:+ Game.dq
      +:+ "></div></div>".
Proof.
  split; [reflexivity |]. split; [reflexivity |].
  destruct (bars_embed_clamped_level Builtins.NumberToString
              (Builtins.parseFloat "150.5") eq_refl eq_refl)
    as (p & Hp & Hs & _).
  rewrite Hs, Hp. vm_compute. reflexivity.
Defined.

(** ** The invest messages *)

Lemma makeInvestment_emits parseFloat g ev data :
  In (Emit ev data) (Game.makeInvestment parseFloat g) ->
  ev = "invest" /\
  data = [("game_id", JStr (Game.gameId g));
          ("stock_symbol", JStr (Game.stock_select g));
          ("amount", JNum (parseFloat (Game.invest_amount g)));
          ("action", JStr "buy")].
Proof.
  unfold Game.makeInvestment. intros H. split_ifs; in_cases H.
  all: try discriminate H.
  all: injection H as <- <-; split; reflexivity.
Qed.

Lemma sellStock_emits parseFloat g ev data :
  In (Emit ev data) (Game.sellStock parseFloat g) ->
  ev = "invest" /\
  data = [("game_id", JStr (Game.gameId g));
          ("stock_symbol", JStr (Game.stock_select g));
          ("amount", JNum (parseFloat (Game.sell_amount g)));
          ("action", JStr "sell")].
Proof.
  unfold Game.sellStock. intros H. split_ifs; in_cases H.
  all: try discriminate H.
  all: injection H as <- <-; split; reflexivity.
Qed.

Lemma step_invest_emits parseFloat trim g ev data :
  In (Emit "invest" data) (snd (Game.step parseFloat trim g ev)) ->
  exists symbol amount action,
    data = [("game_id", JStr (Game.gameId g));
            ("stock_symbol", JStr symbol);
            ("amount", JNum amount);
            ("action", JStr action)] /\
    (action = "buy" \/ action = "sell").
Proof.
  destruct ev; cbn [Game.step snd]; intros H.
  all: try (destruct H; fail).
  - apply makeInvestment_emits in H as [_ ->]. eauto 6.
  - apply sellStock_emits in H as [_ ->]. eauto 6.
  - unfold Game.useCard in H. split_ifs; in_cases H; discriminate H.
  - unfold Game.sendMessage in H. split_ifs; in_cases H; discriminate H.
  - unfold Game.vote in H. split_ifs; in_cases H; discriminate H.
  - unfold Game.nextPhase in H. in_cases H; discriminate H.
  - unfold Game.sendMessage in H. split_ifs; in_cases H; discriminate H.
  - unfold Game.on_investment_result in H. split_ifs; in_cases H; discriminate H.
  - unfold Game.on_card_use_result in H. split_ifs; in_cases H; discriminate H.
  - unfold Game.on_vote_result in H. in_cases H; discriminate H.
Qed.

(** No listener changes the id of the game the page was opened for. *)
Lemma step_gameId parseFloat trim g ev :
  Game.gameId (fst (Game.step parseFloat trim g ev)) = Game.gameId g.
Proof.
  destruct ev; cbn [Game.step fst]; try reflexivity.
  - unfold Game.sendMessage. split_ifs; reflexivity.
  - unfold Game.sendMessage. split_ifs; reflexivity.
  - unfold Game.selectCard. destruct (_ !! _); reflexivity.
  - unfold Game.selectPlayer. destruct (_ !! _); reflexivity.
  - unfold Game.on_investment_result. split_ifs; reflexivity.
  - unfold Game.on_card_use_result. split_ifs; reflexivity.
Qed.

Lemma run_invest_emits parseFloat trim evs g data :
  In (Emit "invest" data) (snd (Game.run parseFloat trim g evs)) ->
  exists symbol amount action,
    data = [("game_id", JStr (Game.gameId g));
            ("stock_symbol", JStr symbol);
            ("amount", JNum amount);
            ("action", JStr action)] /\
    (action = "buy" \/ action = "sell").
Proof.
  revert g. induction evs as [| ev rest IH]; intros g H.
  - destruct H.
  - cbn [Game.run] in H.
    pose proof (step_invest_emits parseFloat trim g ev data) as Hstep.
    pose proof (step_gameId parseFloat trim g ev) as Hid.
    destruct (Game.step parseFloat trim g ev) as [g1 out1].
    specialize (IH g1).
    destruct (Game.run parseFloat trim g1 rest) as [g2 out2].
    cbn [snd fst] in *. apply in_app_or in H as [H | H].
    + auto.
    + rewrite <- Hid. auto.
Qed.

(** C2. An invest message sent by [makeInvestment] has exactly the
    fields game_id, stock_symbol, amount and action, with action
    ['buy']; one sent by [sellStock] has the same fields with action
    ['sell']; neither method sends any other kind of message; and in
    every session (page load, then any sequence of edits, clicks, key
    presses and server answers) every invest message has these four
    fields and an action that is ['buy'] or ['sell']. *)
Theorem invest_messages_have_four_fields
    (parseFloat : string -> jsnum) (trim : string -> string) :
  (forall g ev data,
      In (Emit ev data) (Game.makeInvestment parseFloat g) ->
      ev = "invest" /\ keys data = invest_fields /\
      get data "game_id" = Some (JStr (Game.gameId g)) /\
      get data "stock_symbol" = Some (JStr (Game.stock_select g)) /\
      get data "amount" = Some (JNum (parseFloat (Game.invest_amount g))) /\
      get data "action" = Some (JStr "buy")) /\
  (forall g ev data,
      In (Emit ev data) (Game.sellStock parseFloat g) ->
      ev = "invest" /\ keys data = invest_fields /\
      get data "game_id" = Some (JStr (Game.gameId g)) /\
      get data "stock_symbol" = Some (JStr (Game.stock_select g)) /\
      get data "amount" = Some (JNum (parseFloat (Game.sell_amount g))) /\
      get data "action" = Some (JStr "sell")) /\
  (forall id evs data,
      In (Emit "invest" data) (snd (Game.session parseFloat trim id evs)) ->
      keys data = invest_fields /\
      (get data "action" = Some (JStr "buy") \/
       get data "action" = Some (JStr "sell"))).
Proof.
  split; [| split].
  - intros g ev data H. apply makeInvestment_emits in H as [-> ->].
    repeat split; reflexivity.
  - intros g ev data H. apply sellStock_emits in H as [-> ->].
    repeat split; reflexivity.
  - intros id evs data H. unfold Game.session, Game.constructor in H.
    pose proof (run_invest_emits parseFloat trim evs
                  (Game.StockUndercoverGame id None None None "" "" "" "" [] [])
                  data) as Hr.
    destruct (Game.run parseFloat trim _ evs) as [g out].
    cbn [snd] in H, Hr. apply in_app_or in H as [H | H].
    + unfold Game.initializeSocket in H. in_cases H. discriminate H.
    + destruct (Hr H) as (sym & amt & act & -> & Hact).
      split; [reflexivity |]. destruct Hact as [-> | ->]; [left | right]; reflexivity.
Qed.

Lemma invest_messages_have_four_fields_witness :
  let evs := [Game.Input_stock_select "ACME"; Game.Input_sell_amount "2.5";
              Game.Click_sell] in
  let data := [("game_id", JStr "room1"); ("stock_symbol", JStr "ACME");
               ("amount", JNum (Builtins.parseFloat "2.5"));
               ("action", JStr "sell")] in
  In (Emit "invest" data)
     (snd (Game.session Builtins.parseFloat Builtins.trim "room1" evs)) /\
  keys data = invest_fields /\
  (get data "action" = Some (JStr "buy") \/
   get data "action" = Some (JStr "sell")).
Proof.
  intros evs data.
  assert (H : In (Emit "invest" data)
                (snd (Game.session Builtins.parseFloat Builtins.trim "room1" evs))).
  { right. left. reflexivity. }
  split; [exact H |].
  exact (proj2 (proj2 (invest_messages_have_four_fields
                         Builtins.parseFloat Builtins.trim)) "room1" evs data H).
Defined.

(** ** The answers of the server *)

(** C3. On an [investment_result] and on a [card_use_result] event the
    page shows exactly one notification, of type ['success'] when the
    [success] field of the payload is true (truthy) and of type
    ['error'] otherwise.  On success the first clears the two amount
    fields and nothing else, the second clears the card selection and
    nothing else.  On failure the whole page state, in particular the
    form contents and the selected card, is left as it was. *)
Theorem result_events_notify_and_clear (g : Game.game) (data : Game.result_data) :
  let ok := ToBoolean (Game.success data) in
  let shown := [Notify (Game.message data) (if ok then "success" else "error")] in
  snd (Game.on_investment_result g data) = shown /\
  snd (Game.on_card_use_result g data) = shown /\
  (forall b : bool, Game.success data = JBool b -> (ok = true <-> b = true)) /\
  (ok = false ->
   fst (Game.on_investment_result g data) = g /\
   fst (Game.on_card_use_result g data) = g) /\
  (ok = true ->
   let g1 := fst (Game.on_investment_result g data) in
   let g2 := fst (Game.on_card_use_result g data) in
   g1 = Game.set_invest_form g "" "" /\
   Game.invest_amount g1 = "" /\ Game.sell_amount g1 = "" /\
   Game.selectedCard g1 = Game.selectedCard g /\
   Game.card_items g1 = Game.card_items g /\
   g2 = Game.set_cards g None (Game.deselect_all (Game.card_items g)) /\
   Game.selectedCard g2 = None /\
   Forall (fun it => Game.item_selected it = false) (Game.card_items g2) /\
   map Game.item_id (Game.card_items g2) = map Game.item_id (Game.card_items g) /\
   Game.invest_amount g2 = Game.invest_amount g /\
   Game.sell_amount g2 = Game.sell_amount g).
Proof.
  unfold Game.on_investment_result, Game.on_card_use_result, Game.result_type.
  cbn zeta. destruct (ToBoolean (Game.success data)) eqn:Hok; cbn [fst snd].
  - repeat split; try reflexivity; try discriminate.
    + intros _. rewrite H in Hok. exact Hok.
    + cbn. induction (Game.card_items g) as [| it rest IH];
        constructor; [reflexivity | exact IH].
    + cbn. unfold Game.deselect_all. rewrite map_map. reflexivity.
  - repeat split; try reflexivity; try discriminate.
    + intros Hb. rewrite H in Hok. cbn in Hok. congruence.
Qed.

Lemma result_events_notify_and_clear_witness :
  let g := Game.StockUndercoverGame "room1" None (Some "c7") None "ACME" "10" "3" ""
             [Game.Item "c7" true] [] in
  let data := Game.ResultData (JBool false) "insufficient funds" in
  ToBoolean (Game.success data) = false /\
  fst (Game.on_investment_result g data) = g /\
  fst (Game.on_card_use_result g data) = g.
Proof.
  intros g data. split; [reflexivity |].
  exact (proj1 (proj2 (proj2 (proj2 (result_events_notify_and_clear g data))))
           eq_refl).
Defined.

(** ** Arithmetic that cannot produce NaN *)

Section Rounding.
Variables p em : Z.

Lemma shr_1_nonneg (mrs : shr_record) :
  0 <= shr_m mrs -> 0 <= shr_m (shr_1 mrs).
Proof.
  destruct mrs as [m r s]. cbn [shr_m]. intros Hm.
  destruct m as [| [q | q |] | q]; cbn; lia.
Qed.

Lemma iter_shr_1_nonneg (n : positive) :
  forall mrs, 0 <= shr_m mrs -> 0 <= shr_m (SpecFloat.iter_pos shr_1 n mrs).
Proof.
  induction n as [n IH | n IH |]; intros mrs Hm; cbn [SpecFloat.iter_pos].
  - apply IH, IH, shr_1_nonneg, Hm.
  - apply IH, IH, Hm.
  - apply shr_1_nonneg, Hm.
Qed.

Lemma shr_fexp_nonneg (m e : Z) (l : location) :
  0 <= m -> 0 <= shr_m (fst (shr_fexp p em m e l)).
Proof.
  intros Hm. unfold shr_fexp, shr.
  assert (H0 : 0 <= shr_m (shr_record_of_loc m l)).
  { destruct l as [| []]; exact Hm. }
  destruct (fexp p em (Zdigits2 m + e) - e) as [| n | n]; cbn [fst]; try exact H0.
  apply iter_shr_1_nonneg, H0.
Qed.

Lemma round_nearest_even_nonneg (m : Z) (l : location) :
  0 <= m -> 0 <= round_nearest_even m l.
Proof.
  intros Hm. destruct l as [| []]; cbn; try exact Hm; [| lia].
  destruct (Z.even m); lia.
Qed.

(** Rounding a non-negative mantissa gives a zero, a finite number or
    an infinity. *)
Lemma binary_round_aux_not_nan (sx : bool) (mx ex : Z) (lx : location) :
  0 <= mx -> is_nan (binary_round_aux p em sx mx ex lx) = false.
Proof.
  intros Hm. unfold binary_round_aux.
  pose proof (shr_fexp_nonneg mx ex lx Hm) as H1.
  destruct (shr_fexp p em mx ex lx) as [mrs1 e1]. cbn [fst] in H1.
  pose proof (shr_fexp_nonneg _ e1 loc_Exact
                (round_nearest_even_nonneg _ (loc_of_shr_record mrs1) H1)) as H2.
  destruct (shr_fexp p em _ e1 loc_Exact) as [mrs2 e2]. cbn [fst] in H2.
  destruct (shr_m mrs2) as [| q | q]; [reflexivity | | lia].
  destruct (e2 <=? em - p); reflexivity.
Qed.

Lemma binary_round_not_nan (sx : bool) (mx : positive) (ex : Z) :
  is_nan (binary_round p em sx mx ex) = false.
Proof.
  unfold binary_round. destruct (shl_align _ _ _) as [mz ez].
  apply binary_round_aux_not_nan. lia.
Qed.

Lemma binary_normalize_not_nan (m e : Z) (szero : bool) :
  is_nan (binary_normalize p em m e szero) = false.
Proof.
  destruct m; cbn [binary_normalize]; [reflexivity | |];
    apply binary_round_not_nan.
Qed.

Lemma SFsub_finite_not_nan (x : spec_float) s m e :
  is_nan x = false ->
  is_nan (SFsub p em x (S754_finite s m e)) = false.
Proof.
  intros Hx. destruct x as [sx | sx | | sx mx ex]; try discriminate.
  - reflexivity.
  - reflexivity.
  - cbn [SFsub]. apply binary_normalize_not_nan.
Qed.

Lemma SFdiv_finite_not_nan (x : spec_float) s m e :
  is_nan x = false ->
  is_nan (SFdiv p em x (S754_finite s m e)) = false.
Proof.
  intros Hx. destruct x as [sx | sx | | sx mx ex]; try discriminate;
    try reflexivity.
  cbn [SFdiv]. unfold SFdiv_core_binary.
  set (m' := match _ - _ - _ with Z0 => _ | Zpos _ => _ | Zneg _ => _ end).
  assert (Hm' : 0 <= m').
  { subst m'. destruct (_ - _ - _) as [| k | k]; [lia | | lia].
    apply Z.shiftl_nonneg. lia. }
  pose proof (Z.div_pos m' (Z.pos m) Hm' ltac:(lia)) as Hq.
  unfold Z.div in Hq.
  destruct (Z.div_eucl m' (Z.pos m)) as [q r].
  apply binary_round_aux_not_nan. exact Hq.
Qed.

Lemma SFmul_finite_not_nan (x : spec_float) s m e :
  is_nan x = false ->
  is_nan (SFmul p em x (S754_finite s m e)) = false.
Proof.
  intros Hx. destruct x as [sx | sx | | sx mx ex]; try discriminate;
    try reflexivity.
  cbn [SFmul]. apply binary_round_aux_not_nan. lia.
Qed.
End Rounding.

(** ** The price change of a stock *)

Lemma lookup_second_to_last (h : list jsnum) :
  (2 <= length h)%nat ->
  exists front previous last,
    h = front ++ [previous; last] /\
    h !! (length h - 2)%nat = Some previous.
Proof.
  intros Hlen.
  destruct (rev h) as [| last [| previous rfront]] eqn:Hrev.
  - apply (f_equal (@length _)) in Hrev. rewrite length_rev in Hrev.
    cbn in Hrev. lia.
  - apply (f_equal (@length _)) in Hrev. rewrite length_rev in Hrev.
    cbn in Hrev. lia.
  - assert (Hh : h = rev rfront ++ [previous; last]).
    { rewrite <- (rev_involutive h), Hrev. cbn. rewrite <- !app_assoc. reflexivity. }
    exists (rev rfront), previous, last. split; [exact Hh |].
    rewrite Hh at 2. rewrite Hh at 1.
    rewrite length_app. cbn [length].
    replace (length (rev rfront) + 2 - 2)%nat with (length (rev rfront) + 0)%nat by lia.
    rewrite lookup_app_r by lia.
    replace (length (rev rfront) + 0 - length (rev rfront))%nat with 0%nat by lia.
    reflexivity.
Qed.

(** C4. [calculatePriceChange] returns 0 when [price_history] is absent
    and when it has fewer than two entries.  With at least two entries,
    all of them positive, and a current price that is a number, the
    divisor is the second-to-last entry, it is not zero, and the result
    is [((current_price - previous) / previous) * 100], which is not
    NaN. *)
Theorem price_change_is_relative_to_previous (s : Game.stock) :
  (Game.price_history s = None -> Game.calculatePriceChange s = num_of_Z 0) /\
  (forall h, Game.price_history s = Some h -> (length h < 2)%nat ->
             Game.calculatePriceChange s = num_of_Z 0) /\
  (forall h, Game.price_history s = Some h -> (2 <= length h)%nat ->
             Forall (fun x => is_positive x = true) h ->
             is_nan (Game.current_price s) = false ->
             exists front previous last,
               h = front ++ [previous; last] /\
               is_positive previous = true /\
               is_zero previous = false /\
               Game.calculatePriceChange s =
                 mul (div (sub (Game.current_price s) previous) previous)
                     (num_of_Z 100) /\
               is_nan (Game.calculatePriceChange s) = false).
Proof.
  unfold Game.calculatePriceChange. split; [| split].
  - intros ->. reflexivity.
  - intros h -> Hlen. apply Nat.ltb_lt in Hlen. rewrite Hlen. reflexivity.
  - intros h -> Hlen Hpos Hcur.
    destruct (lookup_second_to_last h Hlen) as (front & previous & last & Hh & Hlook).
    assert (Hlt : (length h <? 2)%nat = false) by (apply Nat.ltb_ge; exact Hlen).
    rewrite Hlt, Hlook.
    assert (Hprev : is_positive previous = true).
    { rewrite Hh in Hpos. apply Forall_app in Hpos as [_ Hpos].
      inversion Hpos. assumption. }
    exists front, previous, last.
    destruct previous as [sp | sp | | [|] mp ep]; try discriminate.
    repeat split; try assumption; try reflexivity.
    rewrite num_of_Z_100. unfold mul, div, sub, hundred.
    apply SFmul_finite_not_nan, SFdiv_finite_not_nan, SFsub_finite_not_nan.
    exact Hcur.
Qed.

Lemma price_change_is_relative_to_previous_witness :
  let h := [Builtins.parseFloat "10"; Builtins.parseFloat "12.5";
            Builtins.parseFloat "11"] in
  let s := Game.Stock "ACME" "Acme" (Builtins.parseFloat "11") (Some h) in
  (2 <= length h)%nat /\
  Forall (fun x => is_positive x = true) h /\
  is_nan (Game.current_price s) = false /\
  Game.calculatePriceChange s =
    mul (div (sub (Builtins.parseFloat "11") (Builtins.parseFloat "12.5"))
             (Builtins.parseFloat "12.5"))
        (num_of_Z 100) /\
  is_nan (Game.calculatePriceChange s) = false.
Proof.
  intros h s.
  assert (Hlen : (2 <= length h)%nat) by (cbn; lia).
  assert (Hpos : Forall (fun x => is_positive x = true) h)
    by (repeat constructor).
  assert (Hcur : is_nan (Game.current_price s) = false) by reflexivity.
  split; [exact Hlen |]. split; [exact Hpos |]. split; [exact Hcur |].
  destruct (proj2 (proj2 (price_change_is_relative_to_previous s))
              h eq_refl Hlen Hpos Hcur)
    as (front & previous & last & Hh & _ & _ & Heq & Hnan).
  split; [| exact Hnan].
  assert (Hfront : length front = 1%nat).
  { apply (f_equal (@length _)) in Hh. rewrite length_app in Hh.
    cbn in Hh. lia. }
  destruct front as [| a [| b front]]; try discriminate Hfront.
  injection Hh as _ <- _. exact Heq.
Defined.

(** ** Phase labels *)

Lemma get_absent (o : obj) (key : string) :
  ~ In key (keys o) -> get o key = None.
Proof.
  induction o as [| [k v] rest IH]; intros H; [reflexivity |].
  cbn [get]. cbn in H. destruct (String.eqb_spec k key) as [-> | _].
  - exfalso. apply H. left. reflexivity.
  - apply IH. intros Hin. apply H. right. exact Hin.
Qed.

(** Away from the five phases and from the names every object
    inherits, the label of a phase is the phase itself. *)
Lemma getPhaseText_fallback (phase : string) :
  ~ In phase (keys Game.phaseTexts) ->
  ~ In phase (keys Game.object_prototype) ->
  Game.getPhaseText phase = JStr phase.
Proof.
  intros Hown Hproto. unfold Game.getPhaseText, Game.get_property.
  rewrite (get_absent _ _ Hown), (get_absent _ _ Hproto). reflexivity.
Qed.

(** For a name every object inherits, the label is the inherited
    function or object, never the name. *)
Lemma getPhaseText_inherited (phase : string) :
  In phase (keys Game.object_prototype) ->
  exists name, Game.getPhaseText phase = JBuiltin name.
Proof.
  cbn. intros H.
  repeat (destruct H as [<- | H]; [eexists; reflexivity |]).
  destruct H.
Qed.

(** C5. [getPhaseText] gives each of the five phases waiting,
    investment, discussion, voting and game_end its fixed non-empty
    label, and the table has no other entry; a string such as
    ['lobby'] comes back unchanged.  But for a name that every object
    inherits from [Object.prototype] the lookup [phaseTexts[phase]]
    finds the inherited function, which is truthy, so the function is
    returned and not the input: [getPhaseText('constructor')] is the
    function [Object]. *)
Theorem getPhaseText_labels_and_inherited_names :
  Game.getPhaseText "waiting" = JStr "等待开始" /\
  Game.getPhaseText "investment" = JStr "投资阶段" /\
  Game.getPhaseText "discussion" = JStr "讨论阶段" /\
  Game.getPhaseText "voting" = JStr "投票阶段" /\
  Game.getPhaseText "game_end" = JStr "游戏结束" /\
  keys Game.phaseTexts =
    ["waiting"; "investment"; "discussion"; "voting"; "game_end"] /\
  Forall (fun kv => exists label, snd kv = JStr label /\ label <> "")
         Game.phaseTexts /\
  Game.getPhaseText "lobby" = JStr "lobby" /\
  ~ In "constructor" (keys Game.phaseTexts) /\
  Game.getPhaseText "constructor" = JBuiltin "Object" /\
  Game.getPhaseText "constructor" <> JStr "constructor" /\
  Game.getPhaseText "toString" <> JStr "toString".
Proof.
  repeat split; try reflexivity; try discriminate.
  - repeat constructor; eexists; (split; [reflexivity | discriminate]).
  - cbn. intros H. repeat (destruct H as [H | H]; [discriminate H |]). exact H.
Qed.

(** ** Client-side checks of the amount *)

(** [!amount || amount <= 0] is false exactly when [amount > 0]. *)
Lemma amount_accepted_iff (amount : jsnum) :
  negb (truthy_num amount) || le amount pos_zero = false <->
  gt amount pos_zero = true.
Proof.
  destruct amount as [s | s | | s m e]; try destruct s; cbn; split;
    intros H; try discriminate H; reflexivity.
Qed.

Lemma truthy_str_iff (s : string) : truthy_str s = true <-> s <> "".
Proof.
  unfold truthy_str, ToBoolean. destruct (String.eqb_spec s "") as [-> | Hne];
    cbn; split; intros H; try discriminate H; try reflexivity; tauto.
Qed.

Lemma makeInvestment_cases parseFloat g :
  let amount := parseFloat (Game.invest_amount g) in
  if truthy_str (Game.stock_select g) && gt amount pos_zero then
    Game.makeInvestment parseFloat g =
      [Emit "invest"
         [("game_id", JStr (Game.gameId g));
          ("stock_symbol", JStr (Game.stock_select g));
          ("amount", JNum amount);
          ("action", JStr "buy")]]
  else
    exists text, Game.makeInvestment parseFloat g = [Notify text "warning"].
Proof.
  cbn zeta. unfold Game.makeInvestment.
  destruct (truthy_str (Game.stock_select g)); cbn [negb andb]; [| eauto].
  pose proof (amount_accepted_iff (parseFloat (Game.invest_amount g))) as Hiff.
  destruct (gt (parseFloat (Game.invest_amount g)) pos_zero).
  - rewrite (proj2 Hiff eq_refl). reflexivity.
  - destruct (negb _ || le _ _); [eauto |].
    discriminate (proj1 Hiff eq_refl).
Qed.

Lemma sellStock_cases parseFloat g :
  let amount := parseFloat (Game.sell_amount g) in
  if truthy_str (Game.stock_select g) && gt amount pos_zero then
    Game.sellStock parseFloat g =
      [Emit "invest"
         [("game_id", JStr (Game.gameId g));
          ("stock_symbol", JStr (Game.stock_select g));
          ("amount", JNum amount);
          ("action", JStr "sell")]]
  else
    exists text, Game.sellStock parseFloat g = [Notify text "warning"].
Proof.
  cbn zeta. unfold Game.sellStock.
  destruct (truthy_str (Game.stock_select g)); cbn [negb andb]; [| eauto].
  pose proof (amount_accepted_iff (parseFloat (Game.sell_amount g))) as Hiff.
  destruct (gt (parseFloat (Game.sell_amount g)) pos_zero).
  - rewrite (proj2 Hiff eq_refl). reflexivity.
  - destruct (negb _ || le _ _); [eauto |].
    discriminate (proj1 Hiff eq_refl).
Qed.

Lemma not_gt_zero_cases (amount : jsnum) :
  is_nan amount = true \/ is_zero amount = true \/ lt amount pos_zero = true ->
  gt amount pos_zero = false.
Proof.
  destruct amount as [s | s | | s m e]; try destruct s; cbn;
    intros [H | [H | H]]; try discriminate H; reflexivity.
Qed.

Lemma accepted_iff (symbol : string) (amount : jsnum) :
  truthy_str symbol && gt amount pos_zero = true <->
  symbol <> "" /\ gt amount pos_zero = true.
Proof.
  rewrite andb_true_iff, truthy_str_iff. reflexivity.
Qed.

Lemma makeInvestment_emit_iff parseFloat g :
  (exists data, In (Emit "invest" data) (Game.makeInvestment parseFloat g)) <->
  Game.stock_select g <> "" /\
  gt (parseFloat (Game.invest_amount g)) pos_zero = true.
Proof.
  rewrite <- accepted_iff.
  pose proof (makeInvestment_cases parseFloat g) as H. cbn zeta in H.
  destruct (truthy_str _ && gt _ pos_zero).
  - rewrite H. split; [reflexivity |]. intros _. eexists. left. reflexivity.
  - destruct H as [text ->]. split; [| discriminate].
    intros [data Hin]. in_cases Hin. discriminate Hin.
Qed.

Lemma sellStock_emit_iff parseFloat g :
  (exists data, In (Emit "invest" data) (Game.sellStock parseFloat g)) <->
  Game.stock_select g <> "" /\
  gt (parseFloat (Game.sell_amount g)) pos_zero = true.
Proof.
  rewrite <- accepted_iff.
  pose proof (sellStock_cases parseFloat g) as H. cbn zeta in H.
  destruct (truthy_str _ && gt _ pos_zero).
  - rewrite H. split; [reflexivity |]. intros _. eexists. left. reflexivity.
  - destruct H as [text ->]. split; [| discriminate].
    intros [data Hin]. in_cases Hin. discriminate Hin.
Qed.

Lemma makeInvestment_warns parseFloat g :
  ~ (Game.stock_select g <> "" /\
     gt (parseFloat (Game.invest_amount g)) pos_zero = true) ->
  exists text, Game.makeInvestment parseFloat g = [Notify text "warning"].
Proof.
  rewrite <- accepted_iff. intros Hnot.
  pose proof (makeInvestment_cases parseFloat g) as H. cbn zeta in H.
  destruct (truthy_str _ && gt _ pos_zero); [| exact H].
  exfalso. apply Hnot. reflexivity.
Qed.

Lemma sellStock_warns parseFloat g :
  ~ (Game.stock_select g <> "" /\
     gt (parseFloat (Game.sell_amount g)) pos_zero = true) ->
  exists text, Game.sellStock parseFloat g = [Notify text "warning"].
Proof.
  rewrite <- accepted_iff. intros Hnot.
  pose proof (sellStock_cases parseFloat g) as H. cbn zeta in H.
  destruct (truthy_str _ && gt _ pos_zero); [| exact H].
  exfalso. apply Hnot. reflexivity.
Qed.

(** C9. [makeInvestment] and [sellStock] send an invest message exactly
    when a stock symbol is selected and [parseFloat] of the amount
    field is above 0; otherwise they send nothing and show one warning.
    In particular a NaN, a zero and a negative amount are rejected.
    The amount sent is the parsed number as it is, with no rounding to
    an integer: the field value ['0.5'] is sent as the number 1/2. *)
Theorem invest_sent_only_for_positive_amount
    (parseFloat : string -> jsnum) (g : Game.game) :
  let bought := parseFloat (Game.invest_amount g) in
  let sold := parseFloat (Game.sell_amount g) in
  ((exists data, In (Emit "invest" data) (Game.makeInvestment parseFloat g)) <->
   Game.stock_select g <> "" /\ gt bought pos_zero = true) /\
  ((exists data, In (Emit "invest" data) (Game.sellStock parseFloat g)) <->
   Game.stock_select g <> "" /\ gt sold pos_zero = true) /\
  (forall data, In (Emit "invest" data) (Game.makeInvestment parseFloat g) ->
                get data "amount" = Some (JNum bought)) /\
  (forall data, In (Emit "invest" data) (Game.sellStock parseFloat g) ->
                get data "amount" = Some (JNum sold)) /\
  (~ (Game.stock_select g <> "" /\ gt bought pos_zero = true) ->
   exists text, Game.makeInvestment parseFloat g = [Notify text "warning"]) /\
  (~ (Game.stock_select g <> "" /\ gt sold pos_zero = true) ->
   exists text, Game.sellStock parseFloat g = [Notify text "warning"]) /\
  (is_nan bought = true \/ is_zero bought = true \/ lt bought pos_zero = true ->
   forall ev data, ~ In (Emit ev data) (Game.makeInvestment parseFloat g)) /\
  (is_nan sold = true \/ is_zero sold = true \/ lt sold pos_zero = true ->
   forall ev data, ~ In (Emit ev data) (Game.sellStock parseFloat g)) /\
  (let half := S754_finite false 4503599627370496 (-53) in
   let page := Game.StockUndercoverGame "room1" None None None "ACME" "0.5" "0.5" ""
                 [] [] in
   (Q_of_num half == 1 # 2)%Q /\
   Game.makeInvestment Builtins.parseFloat page =
     [Emit "invest" [("game_id", JStr "room1"); ("stock_symbol", JStr "ACME");
                     ("amount", JNum half); ("action", JStr "buy")]] /\
   Game.sellStock Builtins.parseFloat page =
     [Emit "invest" [("game_id", JStr "room1"); ("stock_symbol", JStr "ACME");
                     ("amount", JNum half); ("action", JStr "sell")]]).
Proof.
  cbn zeta. split; [apply makeInvestment_emit_iff |].
  split; [apply sellStock_emit_iff |].
  split; [intros data Hin; apply makeInvestment_emits in Hin as [_ ->]; reflexivity |].
  split; [intros data Hin; apply sellStock_emits in Hin as [_ ->]; reflexivity |].
  split; [apply makeInvestment_warns |].
  split; [apply sellStock_warns |].
  split; [| split].
  - intros Hbad ev data Hin. apply not_gt_zero_cases in Hbad.
    destruct (makeInvestment_warns parseFloat g) as [text Heq].
    + intros [_ Hgt]. congruence.
    + rewrite Heq in Hin. in_cases Hin. discriminate Hin.
  - intros Hbad ev data Hin. apply not_gt_zero_cases in Hbad.
    destruct (sellStock_warns parseFloat g) as [text Heq].
    + intros [_ Hgt]. congruence.
    + rewrite Heq in Hin. in_cases Hin. discriminate Hin.
  - repeat split; vm_compute; reflexivity.
Qed.

Lemma invest_sent_only_for_positive_amount_witness :
  let g := Game.StockUndercoverGame "room1" None None None "ACME" "abc" "-3" ""
             [] [] in
  (is_nan (Builtins.parseFloat "abc") = true /\
   forall ev data, ~ In (Emit ev data) (Game.makeInvestment Builtins.parseFloat g)) /\
  (lt (Builtins.parseFloat "-3") pos_zero = true /\
   forall ev data, ~ In (Emit ev data) (Game.sellStock Builtins.parseFloat g)).
Proof.
  intros g.
  pose proof (invest_sent_only_for_positive_amount Builtins.parseFloat g) as H.
  cbn zeta in H. destruct H as (_ & _ & _ & _ & _ & _ & Hbuy & Hsell & _).
  split; split; try reflexivity.
  - apply Hbuy. left. reflexivity.
  - apply Hsell. right. right. reflexivity.
Defined.

(** ** The lobby *)

Lemma SFcompare_antisym (x y : spec_float) :
  SFcompare y x = option_map CompOpp (SFcompare x y).
Proof.
  destruct x as [sx | sx | | sx mx ex], y as [sy | sy | | sy my ey];
    try destruct sx; try destruct sy; try reflexivity; cbn [SFcompare option_map].
  - rewrite (Z.compare_antisym ey ex).
    destruct (ey ?= ex); cbn [CompOpp]; try reflexivity.
    do 2 f_equal. symmetry. exact (Pos.compare_cont_antisym mx my Eq).
  - rewrite (Z.compare_antisym ey ex).
    destruct (ey ?= ex); cbn [CompOpp]; try reflexivity.
    f_equal. symmetry. exact (Pos.compare_cont_antisym mx my Eq).
Qed.

(** For a number, [!(x < a || x > b)] says [a <= x <= b]. *)
Lemma in_range_iff (x a b : jsnum) :
  is_nan x = false -> is_nan a = false -> is_nan b = false ->
  (lt x a || gt x b = false <-> le a x = true /\ le x b = true).
Proof.
  intros Hx Ha Hb. unfold lt, gt, le, SFltb, SFleb.
  rewrite (SFcompare_antisym x a), (SFcompare_antisym x b).
  destruct (SFcompare x a) as [[]|] eqn:E1, (SFcompare x b) as [[]|] eqn:E2;
    cbn; try tauto; try (split; [discriminate | intros [? ?]; discriminate]).
  all: exfalso.
  all: destruct x, a, b; try discriminate; cbn in E1, E2;
    repeat match goal with s : bool |- _ => destruct s end; discriminate.
Qed.

Lemma createGame_cases parseInt trim l :
  let playerName := trim (Lobby.create_player_name l) in
  let maxPlayers := parseInt (Lobby.max_players l) in
  if truthy_str playerName
     && negb (lt maxPlayers (num_of_Z 3) || gt maxPlayers (num_of_Z 8)) then
    Lobby.createGame parseInt trim l =
      [Fetch "/api/create_game" "POST"
         [("player_name", JStr playerName); ("max_players", JNum maxPlayers)]]
  else
    exists text, Lobby.createGame parseInt trim l = [Notify text "warning"].
Proof.
  cbn zeta. unfold Lobby.createGame.
  destruct (truthy_str _); cbn [negb andb]; [| eauto].
  destruct (lt _ _ || gt _ _); cbn [negb]; eauto.
Qed.

(** When the player count parses to a number, the request goes out
    exactly for a non-empty trimmed name and a count from 3 to 8. *)
Lemma createGame_request_iff_in_range parseInt trim l :
  is_nan (parseInt (Lobby.max_players l)) = false ->
  (exists e, In e (Lobby.createGame parseInt trim l) /\ is_fetch e = true) <->
  trim (Lobby.create_player_name l) <> "" /\
  le (num_of_Z 3) (parseInt (Lobby.max_players l)) = true /\
  le (parseInt (Lobby.max_players l)) (num_of_Z 8) = true.
Proof.
  intros Hnum.
  rewrite <- (in_range_iff (parseInt (Lobby.max_players l)) (num_of_Z 3)
                (num_of_Z 8) Hnum eq_refl eq_refl), <- truthy_str_iff.
  pose proof (createGame_cases parseInt trim l) as H. cbn zeta in H.
  destruct (truthy_str _); cbn [andb] in H.
  - destruct (lt _ _ || gt _ _); cbn [negb] in H.
    + destruct H as [text ->]. split; [| intros [_ H]; discriminate H].
      intros (e & Hin & He). in_cases Hin. subst e. discriminate He.
    + rewrite H. split; [tauto |]. intros _. eexists. split; [left |]; reflexivity.
  - destruct H as [text ->]. split; [| intros [H _]; discriminate H].
    intros (e & Hin & He). in_cases Hin. subst e. discriminate He.
Qed.

(** When the player count does not parse (NaN), neither comparison of
    the range check holds and the request goes out with it. *)
Lemma createGame_request_for_NaN parseInt trim l :
  trim (Lobby.create_player_name l) <> "" ->
  is_nan (parseInt (Lobby.max_players l)) = true ->
  Lobby.createGame parseInt trim l =
    [Fetch "/api/create_game" "POST"
       [("player_name", JStr (trim (Lobby.create_player_name l)));
        ("max_players", JNum NaN)]].
Proof.
  intros Hname Hnan.
  pose proof (createGame_cases parseInt trim l) as H. cbn zeta in H.
  rewrite (proj2 (truthy_str_iff _) Hname) in H.
  destruct (parseInt (Lobby.max_players l)); try discriminate Hnan.
  exact H.
Qed.

(** C10. [createGame] is meant to send the create_game request only
    for a non-empty trimmed name and 3 <= max_players <= 8.  With the
    field [max-players] empty, [parseInt] gives NaN; NaN is neither
    below 3 nor above 8, so the range check lets it through and the
    request is sent with a player count that is not in the range. *)
Theorem createGame_sends_request_for_unparsed_count :
  let l := Lobby.GameLobby "Ann" "" "" "" in
  let maxPlayers := Builtins.parseInt (Lobby.max_players l) in
  maxPlayers = NaN /\
  le (num_of_Z 3) maxPlayers = false /\
  le maxPlayers (num_of_Z 8) = false /\
  lt maxPlayers (num_of_Z 3) = false /\
  gt maxPlayers (num_of_Z 8) = false /\
  Lobby.createGame Builtins.parseInt Builtins.trim l =
    [Fetch "/api/create_game" "POST"
       [("player_name", JStr "Ann"); ("max_players", JNum NaN)]] /\
  Lobby.createGame Builtins.parseInt Builtins.trim
    (Lobby.GameLobby "Ann" "2" "" "") =
    [Notify "玩家数量必须在3-8人之间" "warning"] /\
  Lobby.createGame Builtins.parseInt Builtins.trim
    (Lobby.GameLobby "Ann" "5" "" "") =
    [Fetch "/api/create_game" "POST"
       [("player_name", JStr "Ann");
        ("max_players", JNum (Builtins.parseInt "5"))]].
Proof.
  cbn zeta. repeat split; vm_compute; reflexivity.
Qed.

(** ** The engine: commands out of phase *)

Lemma invest_outside_investment g actor sym amount a :
  Engine.current_phase g <> Engine.investment ->
  fst (Engine.invest g actor sym amount a) = g /\
  snd (Engine.invest g actor sym amount a) =
    match Engine.find_player actor (Engine.players g) with
    | Some _ => Engine.Err Engine.StateError
    | None => Engine.Err Engine.NotFoundError
    end.
Proof.
  intros Hphase. unfold Engine.invest.
  destruct (Engine.find_player actor (Engine.players g)); [| split; reflexivity].
  destruct (Engine.current_phase g); try (split; reflexivity).
  destruct Hphase. reflexivity.
Qed.

(** C6. In the voting phase an invest command of a player of the game
    fails with StateError and leaves the whole state of the engine as
    it was: the game, hence the money and the holdings of every player,
    is unchanged. *)
Theorem invest_while_voting_is_rejected
    (games : gmap string Engine.Game) (game_id actor sym : string)
    (amount : nat) (a : Engine.action) (g : Engine.Game) :
  games !! game_id = Some g ->
  Engine.current_phase g = Engine.voting ->
  is_Some (Engine.find_player actor (Engine.players g)) ->
  Engine.invest g actor sym amount a = (g, Engine.Err Engine.StateError) /\
  Engine.invest_command games game_id actor sym amount a =
    (games, Engine.Err Engine.StateError) /\
  (forall g', fst (Engine.invest_command games game_id actor sym amount a)
                !! game_id = Some g' ->
              map Engine.money (Engine.players g') =
                map Engine.money (Engine.players g) /\
              map Engine.stocks (Engine.players g') =
                map Engine.stocks (Engine.players g)).
Proof.
  intros Hgame Hphase [p Hp].
  assert (Hinv : Engine.invest g actor sym amount a
                 = (g, Engine.Err Engine.StateError)).
  { destruct (invest_outside_investment g actor sym amount a) as [H1 H2].
    - rewrite Hphase. discriminate.
    - rewrite Hp in H2.
      destruct (Engine.invest g actor sym amount a) as [g1 r]. cbn in H1, H2.
      subst. reflexivity. }
  assert (Hcmd : Engine.invest_command games game_id actor sym amount a
                 = (games, Engine.Err Engine.StateError)).
  { unfold Engine.invest_command. rewrite Hgame, Hinv.
    rewrite (insert_id games game_id g Hgame). reflexivity. }
  split; [exact Hinv |]. split; [exact Hcmd |].
  intros g' Hg'. rewrite Hcmd in Hg'. cbn [fst] in Hg'.
  rewrite Hgame in Hg'. injection Hg' as <-. split; reflexivity.
Qed.

Lemma invest_while_voting_is_rejected_witness :
  let ann := Engine.mkPlayer "ann" (Q2Qc 1000) ∅ true in
  let bob := Engine.mkPlayer "bob" (Q2Qc 250) {["ACME" := 3%nat]} true in
  let acme := Engine.mkStock "ACME" (Q2Qc 12.5) [Q2Qc 12.5] 0 in
  let g := Engine.mkGame [ann; bob] Engine.voting 1 {["ACME" := acme]} ∅ in
  let games : gmap string Engine.Game := {["room1" := g]} in
  games !! "room1" = Some g /\
  Engine.current_phase g = Engine.voting /\
  is_Some (Engine.find_player "bob" (Engine.players g)) /\
  Engine.invest_command games "room1" "bob" "ACME" 2 Engine.buy_action =
    (games, Engine.Err Engine.StateError).
Proof.
  intros ann bob acme g games.
  assert (H1 : games !! "room1" = Some g) by (vm_compute; reflexivity).
  assert (H2 : Engine.current_phase g = Engine.voting) by reflexivity.
  assert (H3 : is_Some (Engine.find_player "bob" (Engine.players g)))
    by (eexists; reflexivity).
  split; [exact H1 |]. split; [exact H2 |]. split; [exact H3 |].
  exact (proj1 (proj2 (invest_while_voting_is_rejected games "room1" "bob" "ACME"
                         2 Engine.buy_action g H1 H2 H3))).
Defined.

(** ** The engine: the stock market *)

Lemma buy_inversion p s amount p1 s1 :
  Engine.buy p s amount = Engine.Ok (p1, s1) ->
  let cost := (Engine.quantity amount * Engine.current_price s)%Qc in
  (cost <= Engine.money p)%Qc /\
  Engine.id p1 = Engine.id p /\
  Engine.money p1 = (Engine.money p - cost)%Qc /\
  Engine.stocks p1 =
    <[Engine.symbol s := (Engine.holding p (Engine.symbol s) + amount)%nat]>
      (Engine.stocks p) /\
  Engine.symbol s1 = Engine.symbol s /\
  Engine.current_price s1 = Engine.current_price s.
Proof.
  unfold Engine.buy. cbn zeta.
  destruct (Qle_bool _ _) eqn:Hle; [| discriminate].
  intros H. injection H as <- <-. cbn.
  repeat split. apply Qle_bool_iff in Hle. exact Hle.
Qed.

Lemma holding_after_buy p s amount p1 s1 :
  Engine.buy p s amount = Engine.Ok (p1, s1) ->
  Engine.holding p1 (Engine.symbol s)
  = (Engine.holding p (Engine.symbol s) + amount)%nat.
Proof.
  intros H. apply buy_inversion in H as (_ & _ & _ & Hst & _).
  unfold Engine.holding at 1. rewrite Hst, lookup_insert_eq. reflexivity.
Qed.

Lemma sell_after_buy p p1 s s1 s2 amount :
  Engine.buy p s amount = Engine.Ok (p1, s1) ->
  Engine.symbol s2 = Engine.symbol s ->
  Engine.current_price s2 = Engine.current_price s ->
  exists p2,
    Engine.sell p1 s2 amount = Engine.Ok (p2, s2) /\
    Engine.id p2 = Engine.id p /\
    Engine.money p2 = Engine.money p /\
    Engine.holding p2 (Engine.symbol s) = Engine.holding p (Engine.symbol s).
Proof.
  intros Hbuy Hsym Hprice.
  pose proof (holding_after_buy _ _ _ _ _ Hbuy) as Hhold.
  apply buy_inversion in Hbuy as (_ & Hid & Hmoney & _ & _ & _).
  unfold Engine.sell. rewrite Hsym, Hhold, Hprice.
  assert (Hle : (amount <=? Engine.holding p (Engine.symbol s) + amount)%nat = true)
    by (apply Nat.leb_le; lia).
  rewrite Hle. eexists. split; [reflexivity |]. cbn.
  split; [exact Hid |]. split.
  - rewrite Hmoney. ring.
  - unfold Engine.holding at 1. cbn. rewrite lookup_insert_eq. cbn. lia.
Qed.

Lemma find_player_id actor ps p :
  Engine.find_player actor ps = Some p -> Engine.id p = actor.
Proof.
  unfold Engine.find_player. intros H. apply find_some in H as [_ H].
  apply String.eqb_eq. exact H.
Qed.

(** Writing a player back keeps the player findable under the same
    id. *)
Lemma find_replace_player actor ps p p' :
  Engine.find_player actor ps = Some p ->
  Engine.id p' = Engine.id p ->
  Engine.find_player actor (Engine.replace_player p' ps) = Some p'.
Proof.
  intros Hfind Hid. pose proof (find_player_id _ _ _ Hfind) as Hactor.
  assert (Hp' : Engine.id p' = actor) by congruence. clear Hid Hactor.
  unfold Engine.find_player, Engine.replace_player in *. rewrite Hp'.
  induction ps as [| q rest IH]; [discriminate Hfind |].
  cbn [find map] in *.
  destruct (String.eqb_spec (Engine.id q) actor) as [Hq | Hq].
  - cbn [find]. rewrite Hp', String.eqb_refl. reflexivity.
  - cbn [find]. destruct (String.eqb_spec (Engine.id q) actor); [contradiction |].
    apply IH. exact Hfind.
Qed.

(** C8. When a buy succeeds, selling the same amount of the same stock
    right after, at the same price, succeeds too and brings the money
    of the player back to exactly what it was before the buy (there is
    no transaction fee); the holding of the stock is back as well.
    This holds for the StockMarket operations and for two invest
    commands issued one after the other. *)
Theorem buy_then_sell_restores_money :
  (forall (p p1 : Engine.Player) (s s1 s2 : Engine.Stock) (amount : nat),
      Engine.buy p s amount = Engine.Ok (p1, s1) ->
      Engine.symbol s2 = Engine.symbol s ->
      Engine.current_price s2 = Engine.current_price s ->
      Engine.current_price s1 = Engine.current_price s /\
      exists p2 s3,
        Engine.sell p1 s2 amount = Engine.Ok (p2, s3) /\
        Engine.money p2 = Engine.money p /\
        Engine.holding p2 (Engine.symbol s) = Engine.holding p (Engine.symbol s) /\
        Engine.current_price s3 = Engine.current_price s) /\
  (forall (g g1 : Engine.Game) (actor sym : string) (amount : nat),
      Engine.invest g actor sym amount Engine.buy_action
        = (g1, Engine.Ok tt) ->
      exists g2 p p2,
        Engine.invest g1 actor sym amount Engine.sell_action
          = (g2, Engine.Ok tt) /\
        Engine.find_player actor (Engine.players g) = Some p /\
        Engine.find_player actor (Engine.players g2) = Some p2 /\
        Engine.money p2 = Engine.money p).
Proof.
  split.
  - intros p p1 s s1 s2 amount Hbuy Hsym Hprice.
    destruct (sell_after_buy _ _ _ _ _ _ Hbuy Hsym Hprice)
      as (p2 & Hsell & _ & Hmoney & Hhold).
    apply buy_inversion in Hbuy as (_ & _ & _ & _ & _ & Hp1).
    split; [exact Hp1 |]. exists p2, s2. auto.
  - intros g g1 actor sym amount Hinv. unfold Engine.invest in Hinv.
    destruct (Engine.find_player actor (Engine.players g)) as [p |] eqn:Hfind;
      [| discriminate Hinv].
    destruct (Engine.current_phase g) eqn:Hphase; try discriminate Hinv.
    cbn [Engine.phase_eqb negb] in Hinv.
    destruct (Engine.stock_market g !! sym) as [s |] eqn:Hstock;
      [| discriminate Hinv].
    destruct (Engine.buy p s amount) as [[p1 s1] | e] eqn:Hbuy;
      [| discriminate Hinv].
    injection Hinv as <-.
    pose proof (buy_inversion _ _ _ _ _ Hbuy) as (_ & Hid1 & _ & _ & Hsym1 & Hprice1).
    destruct (sell_after_buy _ _ _ _ s1 _ Hbuy Hsym1 Hprice1)
      as (p2 & Hsell & Hid2 & Hmoney & _).
    pose proof (find_replace_player _ _ _ p1 Hfind Hid1) as Hfind1.
    assert (Hid21 : Engine.id p2 = Engine.id p1) by congruence.
    pose proof (find_replace_player _ _ _ p2 Hfind1 Hid21) as Hfind2.
    eexists _, p, p2. unfold Engine.invest. cbn [Engine.players
      Engine.current_phase Engine.stock_market Engine.round Engine.votes].
    rewrite Hfind1. cbn [Engine.phase_eqb negb].
    rewrite lookup_insert_eq, Hsell.
    split; [reflexivity |]. split; [reflexivity |]. split; [exact Hfind2 | exact Hmoney].
Qed.

Lemma buy_then_sell_restores_money_witness :
  let bob := Engine.mkPlayer "bob" (Q2Qc 250) {["ACME" := 3%nat]} true in
  let acme := Engine.mkStock "ACME" (Q2Qc 12.5) [Q2Qc 12.5] 0 in
  exists p1 s1,
    Engine.buy bob acme 4 = Engine.Ok (p1, s1) /\
    exists p2 s3,
      Engine.sell p1 s1 4 = Engine.Ok (p2, s3) /\
      Engine.money p2 = Engine.money bob.
Proof.
  intros bob acme. eexists _, _. split; [vm_compute; reflexivity |].
  match goal with
  | |- exists p2 s3, Engine.sell ?p1 ?s1 _ = _ /\ _ =>
      destruct (proj1 buy_then_sell_restores_money bob p1 acme s1 s1 4%nat
                  ltac:(vm_compute; reflexivity) eq_refl eq_refl)
        as (_ & p2 & s3 & Hsell & Hmoney & _)
  end.
  exists p2, s3. split; [exact Hsell | exact Hmoney].
Defined.

(** ** The engine: the vote tally *)

Lemma voters_retract v tally t :
  Engine.voters (Engine.retract v tally) t = Engine.voters tally t ∖ {[v]}.
Proof.
  unfold Engine.voters, Engine.retract. rewrite lookup_fmap.
  destruct (tally !! t); cbn; [reflexivity | set_solver].
Qed.

Lemma voters_cast tally v t tally' t' :
  Engine.cast Engine.voting tally v t = Engine.Ok tally' ->
  Engine.voters tally' t' =
    if decide (t' = t) then {[v]} ∪ (Engine.voters tally t ∖ {[v]})
    else Engine.voters tally t' ∖ {[v]}.
Proof.
  unfold Engine.cast. cbn [Engine.phase_eqb]. intros [= <-].
  unfold Engine.voters at 1. case_decide as Ht.
  - subst t'. rewrite lookup_insert_eq. cbn. rewrite voters_retract. reflexivity.
  - rewrite lookup_insert_ne by congruence.
    fold (Engine.voters (Engine.retract v tally) t'). apply voters_retract.
Qed.

(** After a vote, the voter stands against the chosen target only. *)
Lemma cast_overwrites tally v t tally' t' :
  Engine.cast Engine.voting tally v t = Engine.Ok tally' ->
  v ∈ Engine.voters tally' t' <-> t' = t.
Proof.
  intros H. rewrite (voters_cast _ _ _ _ t' H). case_decide; set_solver.
Qed.

(** A vote does not move the votes of the other voters. *)
Lemma cast_keeps_others tally v t tally' v' t' :
  Engine.cast Engine.voting tally v t = Engine.Ok tally' ->
  v' <> v ->
  v' ∈ Engine.voters tally' t' <-> v' ∈ Engine.voters tally t'.
Proof.
  intros H Hne. rewrite (voters_cast _ _ _ _ t' H). case_decide; [subst |]; set_solver.
Qed.

Lemma cast_voting_total tally v t :
  exists tally', Engine.cast Engine.voting tally v t = Engine.Ok tally'.
Proof. unfold Engine.cast. cbn [Engine.phase_eqb]. eauto. Qed.

Lemma cast_all_voting_total ballots :
  forall tally, exists final,
    Engine.cast_all Engine.voting tally ballots = Engine.Ok final.
Proof.
  induction ballots as [| [v t] rest IH]; intros tally; cbn [Engine.cast_all].
  - eauto.
  - destruct (cast_voting_total tally v t) as [tally' ->]. apply IH.
Qed.

Lemma cast_all_app ballots1 ballots2 :
  forall tally,
    Engine.cast_all Engine.voting tally (ballots1 ++ ballots2) =
    match Engine.cast_all Engine.voting tally ballots1 with
    | Engine.Ok mid => Engine.cast_all Engine.voting mid ballots2
    | Engine.Err e => Engine.Err e
    end.
Proof.
  induction ballots1 as [| [v t] rest IH]; intros tally; cbn [Engine.cast_all app].
  - reflexivity.
  - destruct (Engine.cast Engine.voting tally v t); [apply IH | reflexivity].
Qed.

Lemma cast_all_keeps_vote ballots v target :
  Forall (fun ballot => fst ballot <> v) ballots ->
  forall tally final,
    Engine.cast_all Engine.voting tally ballots = Engine.Ok final ->
    (forall t, v ∈ Engine.voters tally t <-> t = target) ->
    forall t, v ∈ Engine.voters final t <-> t = target.
Proof.
  induction 1 as [| [v' t'] rest Hne _ IH]; intros tally final Hall Hv;
    cbn [Engine.cast_all] in Hall.
  - injection Hall as <-. exact Hv.
  - destruct (Engine.cast Engine.voting tally v' t') as [tally' |] eqn:Hcast;
      [| discriminate].
    apply (IH tally' final Hall). intros t.
    rewrite (cast_keeps_others _ _ _ _ v t Hcast); [apply Hv |].
    cbn in Hne. congruence.
Qed.

Lemma counted_once v tally target :
  (forall t, v ∈ Engine.voters tally t <-> t = target) ->
  Engine.times_counted v tally = 1%nat.
Proof.
  intros Hv. unfold Engine.times_counted.
  assert (Hin : v ∈ Engine.voters tally target) by (apply Hv; reflexivity).
  unfold Engine.voters in Hin.
  destruct (tally !! target) as [s |] eqn:Hs; cbn in Hin; [| set_solver].
  assert (Hfilter : filter (fun kv : string * gset string => v ∈ kv.2) tally
                    = {[target := s]}).
  { apply map_eq. intros t. destruct (decide (t = target)) as [-> | Hne].
    - rewrite lookup_singleton_eq. apply map_lookup_filter_Some. split; assumption.
    - rewrite lookup_singleton_ne by congruence.
      apply map_lookup_filter_None. right. intros s' Hs' Hvs'. cbn in Hvs'.
      apply Hne, Hv. unfold Engine.voters. rewrite Hs'. exact Hvs'. }
  rewrite Hfilter. apply map_size_singleton.
Qed.

(** C7. When a voter votes twice in one voting phase, first against
    [t1] and later against [t2], whatever the other ballots before,
    between and after (the voter casting none after the second), all
    the ballots are accepted and the tally at the close counts the
    voter against [t2] and against no other target: exactly once.  The
    first vote is overwritten, not added: the vote against [t2] weighs
    one, and when [t1] differs from [t2] the voter is not among the
    votes against [t1].  *)
Theorem second_vote_overwrites_first
    (tally0 : gmap string (gset string))
    (before between after : list (string * string)) (v t1 t2 : string) :
  Forall (fun ballot => fst ballot <> v) after ->
  exists final,
    Engine.cast_all Engine.voting tally0
      (before ++ (v, t1) :: between ++ (v, t2) :: after) = Engine.Ok final /\
    (forall t, v ∈ Engine.voters final t <-> t = t2) /\
    Engine.times_counted v final = 1%nat /\
    (t1 <> t2 -> v ∉ Engine.voters final t1) /\
    Engine.count final t2 = S (size (Engine.voters final t2 ∖ {[v]})).
Proof.
  intros Hafter.
  destruct (cast_all_voting_total (before ++ (v, t1) :: between) tally0)
    as [mid Hmid].
  destruct (cast_voting_total mid v t2) as [voted Hvoted].
  destruct (cast_all_voting_total after voted) as [final Hfinal].
  assert (Hall : Engine.cast_all Engine.voting tally0
                   (before ++ (v, t1) :: between ++ (v, t2) :: after)
                 = Engine.Ok final).
  { replace (before ++ (v, t1) :: between ++ (v, t2) :: after)
      with ((before ++ (v, t1) :: between) ++ (v, t2) :: after)
      by (rewrite <- app_assoc; reflexivity).
    rewrite cast_all_app, Hmid. cbn [Engine.cast_all]. rewrite Hvoted.
    exact Hfinal. }
  assert (Hv : forall t, v ∈ Engine.voters final t <-> t = t2).
  { apply (cast_all_keeps_vote after v t2 Hafter voted final Hfinal).
    intros t. apply (cast_overwrites mid v t2 voted t Hvoted). }
  exists final. split; [exact Hall |]. split; [exact Hv |].
  split; [apply (counted_once v final t2 Hv) |]. split.
  - intros Hne Hin. apply Hv in Hin. contradiction.
  - unfold Engine.count.
    assert (Hin : v ∈ Engine.voters final t2) by (apply Hv; reflexivity).
    assert (Heq : Engine.voters final t2
                  = {[v]} ∪ (Engine.voters final t2 ∖ {[v]})).
    { apply set_eq. intros x. destruct (decide (x = v)); set_solver. }
    rewrite Heq at 1. rewrite size_union by set_solver.
    rewrite size_singleton. reflexivity.
Qed.

Lemma second_vote_overwrites_first_witness :
  let ballots := [("ann", "bob"); ("bob", "cid"); ("ann", "cid"); ("cid", "bob")] in
  Forall (fun ballot : string * string => fst ballot <> "ann") [("cid", "bob")] /\
  exists final,
    Engine.cast_all Engine.voting ∅ ballots = Engine.Ok final /\
    Engine.times_counted "ann" final = 1%nat /\
    "ann" ∉ Engine.voters final "bob".
Proof.
  intros ballots.
  assert (Hafter : Forall (fun ballot : string * string => fst ballot <> "ann")
                     [("cid", "bob")]).
  { constructor; [discriminate | constructor]. }
  split; [exact Hafter |].
  destruct (second_vote_overwrites_first ∅ [] [("bob", "cid")] [("cid", "bob")]
              "ann" "bob" "cid" Hafter)
    as (final & Hall & _ & Honce & Hnot & _).
  exists final. split; [exact Hall |]. split; [exact Honce |].
  apply Hnot. discriminate.
Defined.

(** * Further properties of the scripts *)

(** ** Chat messages *)

Lemma truthy_nullable_iff (o : option string) :
  Game.truthy_nullable o = true <-> exists s, o = Some s /\ s <> "".
Proof.
  destruct o as [s |].
  - change (truthy_str s = true <-> (exists s0, Some s = Some s0 /\ s0 <> "")).
    rewrite truthy_str_iff. split.
    + intros H. exists s. auto.
    + intros (s' & [= <-] & H). exact H.
  - split; [discriminate | intros (s & H & _); discriminate H].
Qed.

Lemma truthy_str_false_iff (s : string) : truthy_str s = false <-> s = "".
Proof.
  unfold truthy_str, ToBoolean.
  destruct (String.eqb_spec s "") as [Hs | Hs]; cbn; split; intros Hx;
    try discriminate Hx; try assumption; try reflexivity.
  contradiction.
Qed.

(** X1. [sendMessage] sends the trimmed text of the message box, and
    only when it is not empty; it then empties the box and touches
    nothing else.  A box that is empty or all blanks sends nothing and
    is left as it is.  So, with a [trim] that maps the empty string to
    itself, a [sendMessage] right after another one sends nothing: a
    message is never sent twice. *)
Theorem sendMessage_sends_trimmed_text_once
    (trim : string -> string) (g : Game.game) :
  trim "" = "" ->
  let text := trim (Game.message_input g) in
  (text <> "" ->
   Game.sendMessage trim g =
     (Game.set_message_input g "",
      [Emit "send_message"
         [("game_id", JStr (Game.gameId g)); ("message", JStr text)]])) /\
  (text = "" -> Game.sendMessage trim g = (g, [])) /\
  snd (Game.sendMessage trim (fst (Game.sendMessage trim g))) = [].
Proof.
  intros Htrim. cbn zeta. unfold Game.sendMessage.
  destruct (truthy_str (trim (Game.message_input g))) eqn:Htext; cbn [negb fst snd].
  - apply truthy_str_iff in Htext. repeat split.
    + intros H. contradiction.
    + cbn [Game.set_message_input Game.message_input]. rewrite Htrim. reflexivity.
  - rewrite Htext. apply truthy_str_false_iff in Htext. repeat split.
    intros H. contradiction.
Qed.

Lemma sendMessage_sends_trimmed_text_once_witness :
  let g := Game.StockUndercoverGame "room1" None None None "" "" "" "  buy ACME  "
             [] [] in
  Builtins.trim "" = "" /\
  Builtins.trim (Game.message_input g) <> "" /\
  Game.sendMessage Builtins.trim g =
    (Game.set_message_input g "",
     [Emit "send_message"
        [("game_id", JStr "room1"); ("message", JStr "buy ACME")]]).
Proof.
  intros g. split; [reflexivity |]. split; [discriminate |].
  exact (proj1 (sendMessage_sends_trimmed_text_once Builtins.trim g eq_refl)
           ltac:(discriminate)).
Defined.

(** ** Cards and votes *)

Lemma useCard_selected (g : Game.game) (id : string) :
  Game.selectedCard g = Some id -> id <> "" ->
  Game.useCard g =
    [Emit "use_card"
       [("game_id", JStr (Game.gameId g));
        ("card_id", JStr id);
        ("target_player_id", of_nullable (Game.selectedTarget g))]].
Proof.
  intros Hsel Hid. unfold Game.useCard.
  assert (H : Game.truthy_nullable (Game.selectedCard g) = true)
    by (apply truthy_nullable_iff; eauto).
  rewrite H, Hsel. reflexivity.
Qed.

(** X2. [useCard] sends a use_card message exactly when a card is
    selected (the field is neither null nor the empty string);
    otherwise it only warns.  The message has the fields game_id,
    card_id and target_player_id, in this order; the target is the
    selected player, or null when none is selected: a card can be
    used without a target. *)
Theorem useCard_needs_a_selected_card (g : Game.game) :
  ((exists ev data, In (Emit ev data) (Game.useCard g)) <->
   exists id, Game.selectedCard g = Some id /\ id <> "") /\
  (forall id, Game.selectedCard g = Some id -> id <> "" ->
     Game.useCard g =
       [Emit "use_card"
          [("game_id", JStr (Game.gameId g));
           ("card_id", JStr id);
           ("target_player_id", of_nullable (Game.selectedTarget g))]]) /\
  (forall id, Game.selectedCard g = Some id -> id <> "" ->
     Game.selectedTarget g = None ->
     exists data, Game.useCard g = [Emit "use_card" data] /\
                  get data "target_player_id" = Some JNull) /\
  (~ (exists id, Game.selectedCard g = Some id /\ id <> "") ->
   exists text, Game.useCard g = [Notify text "warning"]).
Proof.
  pose proof (truthy_nullable_iff (Game.selectedCard g)) as Hiff.
  unfold Game.useCard.
  destruct (Game.truthy_nullable (Game.selectedCard g)) eqn:Hsel; cbn [negb].
  - destruct (proj1 Hiff eq_refl) as (id & Hid & Hne). repeat split.
    + intros _. eauto.
    + intros _. eexists _, _. left. reflexivity.
    + intros id' Hid' _. rewrite Hid'. reflexivity.
    + intros id' Hid' _ Htarget. rewrite Htarget. eexists. split; reflexivity.
    + intros Hnot. exfalso. apply Hnot. eauto.
  - repeat split.
    + intros (ev & data & Hin). in_cases Hin. discriminate Hin.
    + intros H. apply Hiff in H. discriminate H.
    + intros id Hid Hne. assert (H : false = true) by (apply Hiff; eauto).
      discriminate H.
    + intros id Hid Hne. assert (H : false = true) by (apply Hiff; eauto).
      discriminate H.
    + intros _. eauto.
Qed.

Lemma useCard_needs_a_selected_card_witness :
  let g := Game.StockUndercoverGame "room1" None (Some "c7") None "" "" "" ""
             [Game.Item "c7" true] [] in
  Game.selectedCard g = Some "c7" /\
  Game.useCard g =
    [Emit "use_card"
       [("game_id", JStr "room1"); ("card_id", JStr "c7");
        ("target_player_id", JNull)]].
Proof.
  intros g. split; [reflexivity |].
  exact (proj1 (proj2 (useCard_needs_a_selected_card g)) "c7" eq_refl
           ltac:(discriminate)).
Defined.

(** X3. [vote] sends a vote message exactly when a player is selected
    (the field is neither null nor the empty string), with the fields
    game_id and target_player_id; otherwise it only warns. *)
Theorem vote_needs_a_selected_target (g : Game.game) :
  ((exists ev data, In (Emit ev data) (Game.vote g)) <->
   exists id, Game.selectedTarget g = Some id /\ id <> "") /\
  (forall id, Game.selectedTarget g = Some id -> id <> "" ->
     Game.vote g =
       [Emit "vote"
          [("game_id", JStr (Game.gameId g));
           ("target_player_id", JStr id)]]) /\
  (~ (exists id, Game.selectedTarget g = Some id /\ id <> "") ->
   exists text, Game.vote g = [Notify text "warning"]).
Proof.
  pose proof (truthy_nullable_iff (Game.selectedTarget g)) as Hiff.
  unfold Game.vote.
  destruct (Game.truthy_nullable (Game.selectedTarget g)) eqn:Hsel; cbn [negb].
  - destruct (proj1 Hiff eq_refl) as (id & Hid & Hne). repeat split.
    + intros _. eauto.
    + intros _. eexists _, _. left. reflexivity.
    + intros id' Hid' _. rewrite Hid'. reflexivity.
    + intros Hnot. exfalso. apply Hnot. eauto.
  - repeat split.
    + intros (ev & data & Hin). in_cases Hin. discriminate Hin.
    + intros H. apply Hiff in H. discriminate H.
    + intros id Hid Hne. assert (H : false = true) by (apply Hiff; eauto).
      discriminate H.
    + intros _. eauto.
Qed.

Lemma vote_needs_a_selected_target_witness :
  let g := Game.StockUndercoverGame "room1" None None (Some "p2") "" "" "" ""
             [] [Game.Item "p2" true] in
  Game.selectedTarget g = Some "p2" /\
  Game.vote g =
    [Emit "vote" [("game_id", JStr "room1"); ("target_player_id", JStr "p2")]].
Proof.
  intros g. split; [reflexivity |].
  exact (proj1 (proj2 (vote_needs_a_selected_target g)) "p2" eq_refl
           ltac:(discriminate)).
Defined.

Lemma deselect_all_ids (l : list Game.item) :
  map Game.item_id (Game.deselect_all l) = map Game.item_id l.
Proof. unfold Game.deselect_all. rewrite map_map. reflexivity. Qed.

Lemma deselect_all_none_selected (l : list Game.item) :
  List.filter Game.item_selected (Game.deselect_all l) = [].
Proof. induction l as [| x rest IH]; cbn; auto. Qed.

Lemma insert_selected_alone (l : list Game.item) :
  forall i it, l !! i = Some it ->
    List.filter Game.item_selected
      (<[i := Game.Item (Game.item_id it) true]> (Game.deselect_all l))
    = [Game.Item (Game.item_id it) true].
Proof.
  induction l as [| x rest IH]; intros [| i] it Hi; try discriminate Hi.
  - injection Hi as ->. cbn.
    fold (Game.deselect_all rest). rewrite deselect_all_none_selected. reflexivity.
  - specialize (IH i it Hi). cbn. exact IH.
Qed.

Lemma select_at_one_selected (l : list Game.item) (i : nat) (it : Game.item) :
  l !! i = Some it ->
  List.filter Game.item_selected (Game.select_at i l)
  = [Game.Item (Game.item_id it) true].
Proof.
  intros Hi. unfold Game.select_at. rewrite Hi.
  apply insert_selected_alone. exact Hi.
Qed.

Lemma insert_keeps_ids (l : list Game.item) :
  forall i it b, l !! i = Some it ->
    map Game.item_id (<[i := Game.Item (Game.item_id it) b]> l)
    = map Game.item_id l.
Proof.
  induction l as [| x rest IH]; intros [| i] it b Hi; try discriminate Hi.
  - injection Hi as ->. reflexivity.
  - cbn. f_equal. apply IH. exact Hi.
Qed.

Lemma select_at_ids (l : list Game.item) (i : nat) :
  map Game.item_id (Game.select_at i l) = map Game.item_id l.
Proof.
  unfold Game.select_at. destruct (l !! i) as [it |] eqn:Hi.
  - transitivity (map Game.item_id (Game.deselect_all l));
      [| apply deselect_all_ids].
    assert (Hd : Game.deselect_all l !! i
                 = Some (Game.Item (Game.item_id it) false)).
    { revert i Hi. induction l as [| x rest IH]; intros [| i] Hi;
        try discriminate Hi.
      - injection Hi as ->. reflexivity.
      - cbn. apply IH. exact Hi. }
    exact (insert_keeps_ids _ i (Game.Item (Game.item_id it) false) true Hd).
  - apply deselect_all_ids.
Qed.

Lemma select_at_lookup (l : list Game.item) :
  forall i it, l !! i = Some it ->
    Game.select_at i l !! i = Some (Game.Item (Game.item_id it) true).
Proof.
  unfold Game.select_at. intros i it Hi. rewrite Hi.
  apply list_lookup_insert_eq.
  unfold Game.deselect_all. rewrite length_map.
  apply lookup_lt_Some in Hi. exact Hi.
Qed.

(** X4. Clicking a card (or a player) that is on the page makes it the
    selected one and the only one that carries the class [selected],
    whatever was selected before; the elements and their ids stay the
    same, [selectedCard] (or [selectedTarget]) becomes the id of the
    clicked element, and the other selection and the form fields are
    not touched. *)
Theorem a_click_selects_exactly_one (g : Game.game) (i : nat) (it : Game.item) :
  (Game.card_items g !! i = Some it ->
   let g1 := Game.selectCard g i in
   Game.selectedCard g1 = Some (Game.item_id it) /\
   List.filter Game.item_selected (Game.card_items g1)
     = [Game.Item (Game.item_id it) true] /\
   Game.card_items g1 !! i = Some (Game.Item (Game.item_id it) true) /\
   map Game.item_id (Game.card_items g1) = map Game.item_id (Game.card_items g) /\
   Game.selectedTarget g1 = Game.selectedTarget g /\
   Game.player_items g1 = Game.player_items g /\
   Game.stock_select g1 = Game.stock_select g /\
   Game.invest_amount g1 = Game.invest_amount g /\
   Game.sell_amount g1 = Game.sell_amount g /\
   Game.message_input g1 = Game.message_input g) /\
  (Game.player_items g !! i = Some it ->
   let g1 := Game.selectPlayer g i in
   Game.selectedTarget g1 = Some (Game.item_id it) /\
   List.filter Game.item_selected (Game.player_items g1)
     = [Game.Item (Game.item_id it) true] /\
   Game.player_items g1 !! i = Some (Game.Item (Game.item_id it) true) /\
   map Game.item_id (Game.player_items g1) = map Game.item_id (Game.player_items g) /\
   Game.selectedCard g1 = Game.selectedCard g /\
   Game.card_items g1 = Game.card_items g /\
   Game.stock_select g1 = Game.stock_select g /\
   Game.invest_amount g1 = Game.invest_amount g /\
   Game.sell_amount g1 = Game.sell_amount g /\
   Game.message_input g1 = Game.message_input g).
Proof.
  split; intros Hi; cbn zeta.
  - unfold Game.selectCard. rewrite Hi. cbn.
    repeat split.
    + apply select_at_one_selected. exact Hi.
    + apply select_at_lookup. exact Hi.
    + apply select_at_ids.
  - unfold Game.selectPlayer. rewrite Hi. cbn.
    repeat split.
    + apply select_at_one_selected. exact Hi.
    + apply select_at_lookup. exact Hi.
    + apply select_at_ids.
Qed.

Lemma a_click_selects_exactly_one_witness :
  let g := Game.StockUndercoverGame "room1" None (Some "c1") None "" "" "" ""
             [Game.Item "c1" true; Game.Item "c2" false; Game.Item "c3" false] [] in
  Game.card_items g !! 2%nat = Some (Game.Item "c3" false) /\
  Game.selectedCard (Game.selectCard g 2) = Some "c3" /\
  List.filter Game.item_selected (Game.card_items (Game.selectCard g 2))
    = [Game.Item "c3" true].
Proof.
  intros g. split; [reflexivity |].
  destruct (proj1 (a_click_selects_exactly_one g 2 (Game.Item "c3" false)) eq_refl)
    as (H1 & H2 & _).
  split; [exact H1 | exact H2].
Defined.

(** X5. After a click on a card with a non-empty id, [useCard] sends
    that card with the currently selected target.  If the server
    answers with success, the selection is cleared, so a further
    [useCard] only warns: the card is not sent a second time.  If it
    answers with a failure, the selection stays and [useCard] sends
    the same message again. *)
Theorem card_is_used_once_per_selection
    (g : Game.game) (i : nat) (it : Game.item) (data : Game.result_data) :
  Game.card_items g !! i = Some it ->
  Game.item_id it <> "" ->
  let g1 := Game.selectCard g i in
  let g2 := fst (Game.on_card_use_result g1 data) in
  Game.useCard g1 =
    [Emit "use_card"
       [("game_id", JStr (Game.gameId g));
        ("card_id", JStr (Game.item_id it));
        ("target_player_id", of_nullable (Game.selectedTarget g))]] /\
  (ToBoolean (Game.success data) = true ->
   exists text, Game.useCard g2 = [Notify text "warning"]) /\
  (ToBoolean (Game.success data) = false -> Game.useCard g2 = Game.useCard g1).
Proof.
  intros Hi Hid. cbn zeta.
  unfold Game.selectCard. rewrite Hi.
  split; [| split].
  - rewrite (useCard_selected _ (Game.item_id it)); [reflexivity .. | exact Hid].
  - intros Hok. unfold Game.on_card_use_result. rewrite Hok.
    cbn. eauto.
  - intros Hok. unfold Game.on_card_use_result. rewrite Hok. reflexivity.
Qed.

Lemma card_is_used_once_per_selection_witness :
  let g := Game.StockUndercoverGame "room1" None None (Some "p2") "" "" "" ""
             [Game.Item "c1" false; Game.Item "c2" false] [] in
  let it := Game.Item "c2" false in
  Game.card_items g !! 1%nat = Some it /\
  Game.item_id it <> "" /\
  Game.useCard (Game.selectCard g 1) =
    [Emit "use_card"
       [("game_id", JStr "room1"); ("card_id", JStr "c2");
        ("target_player_id", JStr "p2")]].
Proof.
  intros g it.
  assert (Hi : Game.card_items g !! 1%nat = Some it) by reflexivity.
  assert (Hid : Game.item_id it <> "") by discriminate.
  split; [exact Hi |]. split; [exact Hid |].
  exact (proj1 (card_is_used_once_per_selection g 1 it
                  (Game.ResultData (JBool true) "ok") Hi Hid)).
Defined.

(** ** What a session can change and send *)


Lemma step_keeps_target parseFloat trim g ev :
  View.is_player_click ev = false ->
  Game.selectedTarget (fst (Game.step parseFloat trim g ev))
  = Game.selectedTarget g.
Proof.
  destruct ev; intros H; try discriminate H; step_cases; reflexivity.
Qed.

Lemma step_keeps_card parseFloat trim g ev :
  View.touches_card_selection ev = false ->
  Game.selectedCard (fst (Game.step parseFloat trim g ev))
  = Game.selectedCard g.
Proof.
  destruct ev; intros H; try discriminate H; step_cases; reflexivity.
Qed.

Lemma run_gameId parseFloat trim evs :
  forall g, Game.gameId (fst (Game.run parseFloat trim g evs)) = Game.gameId g.
Proof.
  induction evs as [| ev rest IH]; intros g; [reflexivity |].
  cbn [Game.run].
  pose proof (step_gameId parseFloat trim g ev) as Hstep.
  destruct (Game.step parseFloat trim g ev) as [g1 out1].
  specialize (IH g1).
  destruct (Game.run parseFloat trim g1 rest) as [g2 out2].
  cbn [fst] in *. congruence.
Qed.

Lemma run_keeps_field {A : Type} (field : Game.game -> A)
    (quiet : Game.ui_event -> bool) parseFloat trim :
  (forall g ev, quiet ev = true ->
                field (fst (Game.step parseFloat trim g ev)) = field g) ->
  forall evs g, forallb quiet evs = true ->
                field (fst (Game.run parseFloat trim g evs)) = field g.
Proof.
  intros Hstep. induction evs as [| ev rest IH]; intros g Hq; [reflexivity |].
  cbn [forallb] in Hq. apply andb_prop in Hq as [Hev Hrest].
  cbn [Game.run]. specialize (Hstep g ev Hev).
  destruct (Game.step parseFloat trim g ev) as [g1 out1].
  specialize (IH g1 Hrest).
  destruct (Game.run parseFloat trim g1 rest) as [g2 out2].
  cbn [fst] in *. congruence.
Qed.

(** X6. The vote target changes only by a click on a player: over any
    sequence of other events (edits, button clicks, card clicks, key
    presses, answers of the server, a successful card use included)
    [selectedTarget] stays what it was, so [vote] would send the same
    message after as before.  Likewise [selectedCard] changes only by
    a click on a card or by a card_use_result. *)
Theorem selections_change_only_by_their_events
    (parseFloat : string -> jsnum) (trim : string -> string)
    (g : Game.game) (evs : list Game.ui_event) :
  (forallb (fun ev => negb (View.is_player_click ev)) evs = true ->
   Game.selectedTarget (fst (Game.run parseFloat trim g evs))
     = Game.selectedTarget g /\
   Game.vote (fst (Game.run parseFloat trim g evs)) = Game.vote g) /\
  (forallb (fun ev => negb (View.touches_card_selection ev)) evs = true ->
   Game.selectedCard (fst (Game.run parseFloat trim g evs))
     = Game.selectedCard g).
Proof.
  split.
  - intros Hq.
    assert (Ht : Game.selectedTarget (fst (Game.run parseFloat trim g evs))
                 = Game.selectedTarget g).
    { apply (run_keeps_field Game.selectedTarget
               (fun ev => negb (View.is_player_click ev))); [| exact Hq].
      intros g0 ev Hev. apply step_keeps_target.
      apply negb_true_iff. exact Hev. }
    split; [exact Ht |].
    unfold Game.vote. rewrite Ht, run_gameId. reflexivity.
  - intros Hq.
    apply (run_keeps_field Game.selectedCard
             (fun ev => negb (View.touches_card_selection ev))); [| exact Hq].
    intros g0 ev Hev. apply step_keeps_card.
    apply negb_true_iff. exact Hev.
Qed.

Lemma selections_change_only_by_their_events_witness :
  let g := Game.StockUndercoverGame "room1" None (Some "c1") (Some "p2") "" "" "" ""
             [Game.Item "c1" true] [Game.Item "p2" true] in
  let evs := [Game.Click_use_card;
              Game.Recv_card_use_result (Game.ResultData (JBool true) "done");
              Game.Input_message "hello"; Game.Click_send_message] in
  forallb (fun ev => negb (View.is_player_click ev)) evs = true /\
  Game.vote (fst (Game.run Builtins.parseFloat Builtins.trim g evs)) =
    [Emit "vote" [("game_id", JStr "room1"); ("target_player_id", JStr "p2")]].
Proof.
  intros g evs. split; [reflexivity |].
  rewrite (proj2 (proj1 (selections_change_only_by_their_events
                           Builtins.parseFloat Builtins.trim g evs) eq_refl)).
  reflexivity.
Defined.







(** ** Orders after an answer *)

(** X8. After an investment_result that reports success the two amount
    fields are empty; with a [parseFloat] that finds no positive
    number in the empty string, a further click on invest or on sell
    sends nothing and only warns, until an amount is typed again: an
    order is not repeated by clicking twice. *)
Theorem no_order_is_repeated_after_success
    (parseFloat : string -> jsnum) (g : Game.game) (data : Game.result_data) :
  gt (parseFloat "") pos_zero = false ->
  ToBoolean (Game.success data) = true ->
  let g1 := fst (Game.on_investment_result g data) in
  (exists text, Game.makeInvestment parseFloat g1 = [Notify text "warning"]) /\
  (exists text, Game.sellStock parseFloat g1 = [Notify text "warning"]) /\
  Game.stock_select g1 = Game.stock_select g.
Proof.
  intros Hempty Hok. cbn zeta. unfold Game.on_investment_result.
  rewrite Hok. cbn [fst]. split; [| split; [| reflexivity]].
  - apply makeInvestment_warns. cbn. intros [_ H]. congruence.
  - apply sellStock_warns. cbn. intros [_ H]. congruence.
Qed.

Lemma no_order_is_repeated_after_success_witness :
  let g := Game.StockUndercoverGame "room1" None None None "ACME" "10" "" ""
             [] [] in
  let data := Game.ResultData (JBool true) "bought" in
  gt (Builtins.parseFloat "") pos_zero = false /\
  ToBoolean (Game.success data) = true /\
  (exists data0, Game.makeInvestment Builtins.parseFloat g = [Emit "invest" data0]) /\
  (exists text,
     Game.makeInvestment Builtins.parseFloat
       (fst (Game.on_investment_result g data)) = [Notify text "warning"]).
Proof.
  intros g data. split; [reflexivity |]. split; [reflexivity |].
  split; [eexists; vm_compute; reflexivity |].
  exact (proj1 (no_order_is_repeated_after_success Builtins.parseFloat g data
                  eq_refl eq_refl)).
Defined.

(** ** Joining a game *)

Lemma joinGame_cases trim l :
  Lobby.joinGame trim l =
  if truthy_str (trim (Lobby.join_player_name l)) then
    if truthy_str (trim (Lobby.game_id l)) then
      [Fetch "/api/join_game" "POST"
         [("player_name", JStr (trim (Lobby.join_player_name l)));
          ("game_id", JStr (trim (Lobby.game_id l)))]]
    else [Notify "请输入游戏ID" "warning"]
  else [Notify "请输入玩家名称" "warning"].
Proof.
  unfold Lobby.joinGame.
  destruct (truthy_str (trim (Lobby.join_player_name l)));
    destruct (truthy_str (trim (Lobby.game_id l))); reflexivity.
Qed.

(** X9. [joinGame] sends the join_game request exactly when the trimmed
    player name and the trimmed game id are both non-empty, and the
    request carries the trimmed values.  An empty name is reported
    first, whatever the game id; an empty game id is reported only for
    a non-empty name.  [createGame] too reports an empty name before
    it looks at the player count. *)
Theorem joinGame_sends_trimmed_name_and_id
    (parseInt : string -> jsnum) (trim : string -> string) (l : Lobby.lobby) :
  let playerName := trim (Lobby.join_player_name l) in
  let gameId := trim (Lobby.game_id l) in
  ((exists e, In e (Lobby.joinGame trim l) /\ is_fetch e = true) <->
   playerName <> "" /\ gameId <> "") /\
  (playerName <> "" -> gameId <> "" ->
   Lobby.joinGame trim l =
     [Fetch "/api/join_game" "POST"
        [("player_name", JStr playerName); ("game_id", JStr gameId)]]) /\
  (playerName = "" ->
   Lobby.joinGame trim l = [Notify "请输入玩家名称" "warning"]) /\
  (playerName <> "" -> gameId = "" ->
   Lobby.joinGame trim l = [Notify "请输入游戏ID" "warning"]) /\
  (trim (Lobby.create_player_name l) = "" ->
   Lobby.createGame parseInt trim l = [Notify "请输入玩家名称" "warning"]).
Proof.
  cbn zeta. rewrite joinGame_cases.
  assert (Hcreate : trim (Lobby.create_player_name l) = "" ->
            Lobby.createGame parseInt trim l = [Notify "请输入玩家名称" "warning"]).
  { intros H. unfold Lobby.createGame.
    rewrite (proj2 (truthy_str_false_iff _) H). reflexivity. }
  assert (Hno : forall text,
            ~ exists e, In e [Notify text "warning"] /\ is_fetch e = true).
  { intros text (e & Hin & He). in_cases Hin. subst e. discriminate He. }
  destruct (String.eqb_spec (trim (Lobby.join_player_name l)) "") as [Hn | Hn].
  - rewrite (proj2 (truthy_str_false_iff _) Hn).
    split; [split; [intros H; destruct (Hno _ H) | intros [H _]; contradiction] |].
    split; [intros H; contradiction |].
    split; [reflexivity |].
    split; [intros H; contradiction | exact Hcreate].
  - rewrite (proj2 (truthy_str_iff _) Hn).
    destruct (String.eqb_spec (trim (Lobby.game_id l)) "") as [Hg | Hg].
    + rewrite (proj2 (truthy_str_false_iff _) Hg).
      split; [split; [intros H; destruct (Hno _ H) | intros [_ H]; contradiction] |].
      split; [intros _ H; contradiction |].
      split; [intros H; contradiction |].
      split; [reflexivity | exact Hcreate].
    + rewrite (proj2 (truthy_str_iff _) Hg).
      split; [split; [intros _; split; assumption |] |].
      { intros _. eexists. split; [left; reflexivity | reflexivity]. }
      split; [reflexivity |].
      split; [intros H; contradiction |].
      split; [intros _ H; contradiction | exact Hcreate].
Qed.

Lemma joinGame_sends_trimmed_name_and_id_witness :
  let l := Lobby.GameLobby "" "" "  Ann " " room1  " in
  Builtins.trim (Lobby.join_player_name l) <> "" /\
  Builtins.trim (Lobby.game_id l) <> "" /\
  Lobby.joinGame Builtins.trim l =
    [Fetch "/api/join_game" "POST"
       [("player_name", JStr "Ann"); ("game_id", JStr "room1")]].
Proof.
  intros l. split; [discriminate |]. split; [discriminate |].
  exact (proj1 (proj2 (joinGame_sends_trimmed_name_and_id Builtins.parseInt
                         Builtins.trim l))
           ltac:(discriminate) ltac:(discriminate)).
Defined.

(** ** Labels of cards *)

Lemma get_present (o : obj) (key : string) :
  In key (keys o) -> exists v, get o key = Some v /\ In (key, v) o.
Proof.
  induction o as [| [k v] rest IH]; intros H; [destruct H |].
  cbn [get]. destruct (String.eqb_spec k key) as [-> | Hne].
  - exists v. split; [reflexivity | left; reflexivity].
  - destruct H as [H | H]; [cbn in H; contradiction |].
    destruct (IH H) as (v' & Hget & Hin). exists v'. split; [exact Hget |].
    right. exact Hin.
Qed.

(** A lookup with fallback, in a table of non-empty labels. *)
Lemma label_or_key (table : obj) (key : string) :
  Forall (fun kv => exists label, snd kv = JStr label /\ label <> "") table ->
  let text := Game.or_else (Game.get_property table key) (JStr key) in
  (In key (keys table) ->
   exists label, text = JStr label /\ label <> "" /\ In (key, JStr label) table) /\
  (~ In key (keys table) -> ~ In key (keys Game.object_prototype) ->
   text = JStr key) /\
  (~ In key (keys table) -> In key (keys Game.object_prototype) ->
   exists name, text = JBuiltin name).
Proof.
  intros Hlabels. cbn zeta. unfold Game.get_property. split; [| split].
  - intros Hin. destruct (get_present table key Hin) as (v & Hget & Hv).
    rewrite Hget. rewrite Forall_forall in Hlabels.
    destruct (Hlabels (key, v)) as (label & Hl & Hne).
    { apply list_elem_of_In. exact Hv. }
    cbn in Hl. subst v. exists label. unfold Game.or_else.
    change (ToBoolean (JStr label)) with (truthy_str label).
    rewrite (proj2 (truthy_str_iff label) Hne). auto.
  - intros Hown Hproto.
    rewrite (get_absent _ _ Hown), (get_absent _ _ Hproto). reflexivity.
  - intros Hown Hproto. rewrite (get_absent _ _ Hown).
    destruct (get_present _ _ Hproto) as (v & Hget & Hv). rewrite Hget.
    cbn in Hv.
    repeat (destruct Hv as [[= <- <-] | Hv]; [eexists; reflexivity |]).
    destruct Hv.
Qed.

Lemma typeTexts_labels :
  Forall (fun kv => exists label, snd kv = JStr label /\ label <> "") View.typeTexts.
Proof. repeat constructor; eexists; (split; [reflexivity | discriminate]). Qed.

Lemma rarityTexts_labels :
  Forall (fun kv => exists label, snd kv = JStr label /\ label <> "") View.rarityTexts.
Proof. repeat constructor; eexists; (split; [reflexivity | discriminate]). Qed.

(** X10. [getCardTypeText] and [getCardRarityText] return, for a type
    (a rarity) of their table, its non-empty label; for any other
    string that is not the name of a property inherited from
    [Object.prototype], the string itself; and for such an inherited
    name, the inherited function or object.  For a non-empty input
    the result is never undefined, null or an empty text. *)
Theorem card_texts_are_label_or_input (key : string) :
  (In key (keys View.typeTexts) ->
   exists label, View.getCardTypeText key = JStr label /\ label <> "" /\
                 In (key, JStr label) View.typeTexts) /\
  (In key (keys View.rarityTexts) ->
   exists label, View.getCardRarityText key = JStr label /\ label <> "" /\
                 In (key, JStr label) View.rarityTexts) /\
  (~ In key (keys View.typeTexts) -> ~ In key (keys Game.object_prototype) ->
   View.getCardTypeText key = JStr key) /\
  (~ In key (keys View.rarityTexts) -> ~ In key (keys Game.object_prototype) ->
   View.getCardRarityText key = JStr key) /\
  (In key (keys Game.object_prototype) ->
   exists name1 name2,
     View.getCardTypeText key = JBuiltin name1 /\
     View.getCardRarityText key = JBuiltin name2) /\
  (key <> "" ->
   ToBoolean (View.getCardTypeText key) = true /\
   ToBoolean (View.getCardRarityText key) = true).
Proof.
  pose proof (label_or_key View.typeTexts key typeTexts_labels) as (T1 & T2 & T3).
  pose proof (label_or_key View.rarityTexts key rarityTexts_labels) as (R1 & R2 & R3).
  fold (View.getCardTypeText key) in T1, T2, T3.
  fold (View.getCardRarityText key) in R1, R2, R3.
  split; [exact T1 |]. split; [exact R1 |]. split; [exact T2 |]. split; [exact R2 |].
  split.
  - intros Hproto.
    assert (Ht : ~ In key (keys View.typeTexts)).
    { cbn in Hproto |- *. intros H.
      repeat (destruct Hproto as [<- | Hproto];
              [repeat (destruct H as [H | H]; [discriminate H |]); exact H |]).
      exact Hproto. }
    assert (Hr : ~ In key (keys View.rarityTexts)).
    { cbn in Hproto |- *. intros H.
      repeat (destruct Hproto as [<- | Hproto];
              [repeat (destruct H as [H | H]; [discriminate H |]); exact H |]).
      exact Hproto. }
    destruct (T3 Ht Hproto) as [n1 H1]. destruct (R3 Hr Hproto) as [n2 H2]. eauto.
  - intros Hkey. unfold View.getCardTypeText, View.getCardRarityText, Game.or_else.
    split.
    + destruct (ToBoolean (Game.get_property View.typeTexts key)) eqn:E;
        [exact E | apply truthy_str_iff; exact Hkey].
    + destruct (ToBoolean (Game.get_property View.rarityTexts key)) eqn:E;
        [exact E | apply truthy_str_iff; exact Hkey].
Qed.

Lemma card_texts_are_label_or_input_witness :
  In "epic" (keys View.rarityTexts) /\
  ~ In "mythic" (keys View.rarityTexts) /\
  View.getCardRarityText "mythic" = JStr "mythic" /\
  exists label, View.getCardRarityText "epic" = JStr label /\ label <> "".
Proof.
  assert (H1 : In "epic" (keys View.rarityTexts)) by (cbn; tauto).
  assert (H2 : ~ In "mythic" (keys View.rarityTexts)).
  { cbn. intros H. repeat (destruct H as [H | H]; [discriminate H |]). exact H. }
  assert (H3 : ~ In "mythic" (keys Game.object_prototype)).
  { cbn. intros H. repeat (destruct H as [H | H]; [discriminate H |]). exact H. }
  split; [exact H1 |]. split; [exact H2 |]. split.
  - exact (proj1 (proj2 (proj2 (proj2 (card_texts_are_label_or_input "mythic"))))
             H2 H3).
  - destruct (proj1 (proj2 (card_texts_are_label_or_input "epic")) H1)
      as (label & Hl & Hne & _).
    exists label. split; assumption.
Defined.

(** ** Order of the progress bars *)

(** On positive finite numbers, [<=] followed by [<] gives [<]. *)
Lemma le_lt_trans_positive (ma mb mc : positive) (ea eb ec : Z) :
  le (S754_finite false ma ea) (S754_finite false mb eb) = true ->
  lt (S754_finite false mb eb) (S754_finite false mc ec) = true ->
  lt (S754_finite false ma ea) (S754_finite false mc ec) = true.
Proof.
  unfold le, lt, SFleb, SFltb. cbn [SFcompare].
  change (Pos.compare_cont Eq ma mb) with (ma ?= mb)%positive.
  change (Pos.compare_cont Eq mb mc) with (mb ?= mc)%positive.
  change (Pos.compare_cont Eq ma mc) with (ma ?= mc)%positive.
  destruct (Z.compare_spec ea eb) as [Hab | Hab | Hab]; try discriminate;
    destruct (Z.compare_spec eb ec) as [Hbc | Hbc | Hbc]; try discriminate;
    destruct (Z.compare_spec ea ec) as [Hac | Hac | Hac]; try lia;
    try reflexivity.
  destruct (Pos.compare_spec ma mb) as [H1 | H1 | H1]; try discriminate;
    destruct (Pos.compare_spec mb mc) as [H2 | H2 | H2]; try discriminate;
    intros _ _.
  - subst mb. rewrite (proj2 (Pos.compare_lt_iff ma mc) H2). reflexivity.
  - rewrite (proj2 (Pos.compare_lt_iff ma mc) (Pos.lt_trans _ _ _ H1 H2)).
    reflexivity.
Qed.

Lemma lt_implies_le (x y : jsnum) : lt x y = true -> le x y = true.
Proof.
  unfold lt, le, SFltb, SFleb. destruct (SFcompare x y) as [[]|];
    try discriminate; reflexivity.
Qed.

Lemma le_refl_positive (m : positive) (e : Z) :
  le (S754_finite false m e) (S754_finite false m e) = true.
Proof.
  unfold le, SFleb. cbn [SFcompare]. rewrite Z.compare_refl.
  change (Pos.compare_cont Eq m m) with (m ?= m)%positive.
  rewrite Pos.compare_refl. reflexivity.
Qed.

(** X11. The width of a bar grows with the level: when one level is
    below or equal to another (neither is NaN then), the width
    [Math.min(100, Math.max(0, level))] embedded for the first is
    below or equal to the width embedded for the second.  A player
    with the higher suspicion or trust never gets the shorter bar. *)
Theorem bar_width_is_monotone
    (NumberToString : jsnum -> string) (a b : jsnum) :
  le a b = true ->
  exists wa wb : jsnum,
    wa = Math_min [num_of_Z 100; Math_max [num_of_Z 0; a]] /\
    wb = Math_min [num_of_Z 100; Math_max [num_of_Z 0; b]] /\
    Game.createSuspicionBar NumberToString a =
      "<div class=" +:+ Game.dq +:+ "progress-bar suspicion" +:+ Game.dq
        +:+ "><div class=" +:+ Game.dq +:+ "progress-fill" +:+ Game.dq
        +:+ " style=" +:+ Game.dq +:+ "width: " +:+ NumberToString wa
        +:+ "%" +:+ Game.dq +:+ "></div></div>" /\
    Game.createSuspicionBar NumberToString b =
      "<div class=" +:+ Game.dq +:+ "progress-bar suspicion" +:+ Game.dq
        +:+ "><div class=" +:+ Game.dq +:+ "progress-fill" +:+ Game.dq
        +:+ " style=" +:+ Game.dq +:+ "width: " +:+ NumberToString wb
        +:+ "%" +:+ Game.dq +:+ "></div></div>" /\
    Game.createTrustBar NumberToString a =
      "<div class=" +:+ Game.dq +:+ "progress-bar trust" +:+ Game.dq
        +:+ "><div class=" +:+ Game.dq +:+ "progress-fill" +:+ Game.dq
        +:+ " style=" +:+ Game.dq +:+ "width: " +:+ NumberToString wa
        +:+ "%" +:+ Game.dq +:+ "></div></div>" /\
    Game.createTrustBar NumberToString b =
      "<div class=" +:+ Game.dq +:+ "progress-bar trust" +:+ Game.dq
        +:+ "><div class=" +:+ Game.dq +:+ "progress-fill" +:+ Game.dq
        +:+ " style=" +:+ Game.dq +:+ "width: " +:+ NumberToString wb
        +:+ "%" +:+ Game.dq +:+ "></div></div>" /\
    le wa wb = true.
Proof.
  intros Hab. eexists _, _.
  split; [reflexivity |]. split; [reflexivity |].
  split; [reflexivity |]. split; [reflexivity |].
  split; [reflexivity |]. split; [reflexivity |].
  rewrite !clamp_cases.
  destruct a as [sa | sa | | sa ma ea]; try destruct sa;
    destruct b as [sb | sb | | sb mb eb]; try destruct sb;
    try discriminate Hab; try reflexivity.
  all: try (destruct (lt (S754_finite false mb eb) hundred) eqn:Eb; reflexivity).
  - (* a positive number and +Infinity *)
    change (le (if lt (S754_finite false ma ea) hundred
                then S754_finite false ma ea else hundred) hundred = true).
    destruct (lt (S754_finite false ma ea) hundred) eqn:Ea; [| reflexivity].
    apply lt_implies_le. exact Ea.
  - (* two positive numbers *)
    change (le (if lt (S754_finite false ma ea) hundred
                then S754_finite false ma ea else hundred)
               (if lt (S754_finite false mb eb) hundred
                then S754_finite false mb eb else hundred) = true).
    destruct (lt (S754_finite false mb eb) hundred) eqn:Eb.
    + assert (Ea : lt (S754_finite false ma ea) hundred = true)
        by exact (le_lt_trans_positive _ _ _ _ _ _ Hab Eb).
      rewrite Ea. exact Hab.
    + destruct (lt (S754_finite false ma ea) hundred) eqn:Ea.
      * apply lt_implies_le. exact Ea.
      * reflexivity.
Qed.

Lemma bar_width_is_monotone_witness :
  let a := Builtins.parseFloat "30" in
  let b := Builtins.parseFloat "250" in
  le a b = true /\
  le (Math_min [num_of_Z 100; Math_max [num_of_Z 0; a]])
     (Math_min [num_of_Z 100; Math_max [num_of_Z 0; b]]) = true.
Proof.
  intros a b. split; [reflexivity |].
  destruct (bar_width_is_monotone Builtins.NumberToString a b eq_refl)
    as (wa & wb & -> & -> & _ & _ & _ & _ & H).
  exact H.
Defined.

(** ** Direction of a price change *)

Section Signs.
Variables p em : Z.

Lemma binary_round_aux_sign (sx : bool) (mx ex : Z) (lx : location) :
  0 <= mx -> View.sign_is sx (binary_round_aux p em sx mx ex lx) = true.
Proof.
  intros Hm. unfold binary_round_aux.
  pose proof (shr_fexp_nonneg p em mx ex lx Hm) as H1.
  destruct (shr_fexp p em mx ex lx) as [mrs1 e1]. cbn [fst] in H1.
  pose proof (shr_fexp_nonneg p em _ e1 loc_Exact
                (round_nearest_even_nonneg _ (loc_of_shr_record mrs1) H1)) as H2.
  destruct (shr_fexp p em _ e1 loc_Exact) as [mrs2 e2]. cbn [fst] in H2.
  destruct (shr_m mrs2) as [| q | q]; [| | lia].
  - cbn. apply eqb_reflx.
  - destruct (e2 <=? em - p); cbn; apply eqb_reflx.
Qed.

Lemma binary_round_sign (sx : bool) (mx : positive) (ex : Z) :
  View.sign_is sx (binary_round p em sx mx ex) = true.
Proof.
  unfold binary_round. destruct (shl_align _ _ _) as [mz ez].
  apply binary_round_aux_sign. lia.
Qed.

Lemma SFdiv_positive_sign (s : bool) (x : spec_float) m e :
  View.sign_is s x = true ->
  View.sign_is s (SFdiv p em x (S754_finite false m e)) = true.
Proof.
  destruct x as [sx | sx | | sx mx ex]; cbn [View.sign_is]; intros Hs;
    try discriminate Hs; apply eqb_prop in Hs; subst sx.
  - cbn. rewrite xorb_false_r. apply eqb_reflx.
  - cbn. rewrite xorb_false_r. apply eqb_reflx.
  - cbn [SFdiv]. unfold SFdiv_core_binary.
    set (m' := match _ - _ - _ with Z0 => _ | Zpos _ => _ | Zneg _ => _ end).
    assert (Hm' : 0 <= m').
    { subst m'. destruct (_ - _ - _) as [| k | k]; [lia | | lia].
      apply Z.shiftl_nonneg. lia. }
    pose proof (Z.div_pos m' (Z.pos m) Hm' ltac:(lia)) as Hq.
    unfold Z.div in Hq.
    destruct (Z.div_eucl m' (Z.pos m)) as [q r].
    rewrite xorb_false_r. apply binary_round_aux_sign. exact Hq.
Qed.

Lemma SFmul_positive_sign (s : bool) (x : spec_float) m e :
  View.sign_is s x = true ->
  View.sign_is s (SFmul p em x (S754_finite false m e)) = true.
Proof.
  destruct x as [sx | sx | | sx mx ex]; cbn [View.sign_is]; intros Hs;
    try discriminate Hs; apply eqb_prop in Hs; subst sx.
  - cbn. rewrite xorb_false_r. apply eqb_reflx.
  - cbn. rewrite xorb_false_r. apply eqb_reflx.
  - cbn [SFmul]. rewrite xorb_false_r. apply binary_round_aux_sign. lia.
Qed.
End Signs.

Lemma iter_xO_value (d m : positive) :
  Z.pos (Pos.iter xO m d) = Z.pos m * 2 ^ Z.pos d.
Proof.
  induction d as [| d IH] using Pos.peano_ind.
  - cbn [Pos.iter]. rewrite Z.pow_1_r. lia.
  - rewrite Pos.iter_succ, Pos2Z.inj_succ, Z.pow_succ_r by lia.
    rewrite Pos2Z.inj_xO, IH. ring.
Qed.

(** Aligning a mantissa to a lower exponent keeps the value. *)
Lemma shl_align_value (m : positive) (e e' : Z) :
  e' <= e -> Z.pos (fst (shl_align m e e')) = Z.pos m * 2 ^ (e - e').
Proof.
  intros He. unfold shl_align.
  destruct (e' - e) as [| d | d] eqn:Hd; try lia.
  - replace (e - e') with 0 by lia. cbn [fst]. lia.
  - cbn [fst]. rewrite iter_xO_value. f_equal. f_equal. lia.
Qed.

Lemma digits2_pos_lower (m : positive) :
  2 ^ (Z.pos (digits2_pos m) - 1) <= Z.pos m.
Proof.
  induction m as [q IH | q IH |]; cbn [digits2_pos].
  - rewrite Pos2Z.inj_succ.
    replace (Z.succ (Z.pos (digits2_pos q)) - 1)
      with (Z.succ (Z.pos (digits2_pos q) - 1)) by lia.
    rewrite Z.pow_succ_r by lia. lia.
  - rewrite Pos2Z.inj_succ.
    replace (Z.succ (Z.pos (digits2_pos q)) - 1)
      with (Z.succ (Z.pos (digits2_pos q) - 1)) by lia.
    rewrite Z.pow_succ_r by lia. lia.
  - cbn. lia.
Qed.

(** A binary64 value has an exponent from -1074 on, a mantissa below
    2^53, and a mantissa of full width above the lowest exponent. *)
Lemma valid_binary_shape (s : bool) (m : positive) (e : Z) :
  valid_binary prec emax (S754_finite s m e) = true ->
  -1074 <= e /\ Z.pos m < 9007199254740992 /\
  (-1074 < e -> 4503599627370496 <= Z.pos m).
Proof.
  intros Hv. pose proof (valid_binary_mantissa s m e Hv) as Hm.
  change (2 ^ 53) with 9007199254740992 in Hm.
  unfold valid_binary, bounded, canonical_mantissa, fexp, emin, prec, emax in Hv.
  apply andb_prop in Hv as [Hv _]. apply Z.eqb_eq in Hv.
  split; [lia |]. split; [exact Hm |].
  intros He. assert (Hd : Z.pos (digits2_pos m) = 53) by lia.
  pose proof (digits2_pos_lower m) as Hl. rewrite Hd in Hl.
  change (2 ^ (53 - 1)) with 4503599627370496 in Hl. exact Hl.
Qed.

(** For binary64 values above zero, the order of two numbers is the
    order of their aligned mantissas. *)
Lemma lt_aligned (ma mb : positive) (ea eb : Z) :
  valid_binary prec emax (S754_finite false ma ea) = true ->
  valid_binary prec emax (S754_finite false mb eb) = true ->
  lt (S754_finite false ma ea) (S754_finite false mb eb) = true ->
  Z.pos (fst (shl_align ma ea (Z.min ea eb)))
  < Z.pos (fst (shl_align mb eb (Z.min ea eb))).
Proof.
  intros Ha Hb Hlt.
  apply valid_binary_shape in Ha as (Hea & Hma & _).
  apply valid_binary_shape in Hb as (Heb & Hmb & Hfull).
  rewrite !shl_align_value by lia.
  unfold lt, SFltb in Hlt. cbn [SFcompare] in Hlt.
  destruct (Z.compare_spec ea eb) as [He | He | He]; try discriminate Hlt.
  - subst eb. rewrite Z.min_id, Z.sub_diag, Z.pow_0_r, !Z.mul_1_r.
    destruct (Pos.compare_cont Eq ma mb) eqn:Hc; try discriminate Hlt.
    pose proof (proj1 (Pos.compare_lt_iff ma mb) Hc) as H.
    apply Pos2Z.pos_lt_pos. exact H.
  - rewrite Z.min_l by lia. rewrite Z.sub_diag, Z.pow_0_r, Z.mul_1_r.
    specialize (Hfull ltac:(lia)).
    assert (Hpow : 2 ^ 1 <= 2 ^ (eb - ea)) by (apply Z.pow_le_mono_r; lia).
    change (2 ^ 1) with 2 in Hpow.
    assert (Hmul : 4503599627370496 * 2 <= Z.pos mb * 2 ^ (eb - ea)).
    { apply Z.mul_le_mono_nonneg; lia. }
    lia.
Qed.

Lemma sub_sign_of_order (mc mp : positive) (ec ep : Z) :
  valid_binary prec emax (S754_finite false mc ec) = true ->
  valid_binary prec emax (S754_finite false mp ep) = true ->
  (lt (S754_finite false mp ep) (S754_finite false mc ec) = true ->
   View.sign_is false (sub (S754_finite false mc ec) (S754_finite false mp ep))
   = true) /\
  (lt (S754_finite false mc ec) (S754_finite false mp ep) = true ->
   View.sign_is true (sub (S754_finite false mc ec) (S754_finite false mp ep))
   = true).
Proof.
  intros Hc Hp. unfold sub. cbn [SFsub cond_Zopp]. split; intros Hlt.
  - pose proof (lt_aligned mp mc ep ec Hp Hc Hlt) as H.
    rewrite (Z.min_comm ep ec) in H.
    destruct (Z.pos (fst (shl_align mc ec (Z.min ec ep)))
              - Z.pos (fst (shl_align mp ep (Z.min ec ep)))) as [| d | d] eqn:Hd;
      try lia.
    cbn [binary_normalize]. apply binary_round_sign.
  - pose proof (lt_aligned mc mp ec ep Hc Hp Hlt) as H.
    destruct (Z.pos (fst (shl_align mc ec (Z.min ec ep)))
              - Z.pos (fst (shl_align mp ep (Z.min ec ep)))) as [| d | d] eqn:Hd;
      try lia.
    cbn [binary_normalize]. apply binary_round_sign.
Qed.

Lemma sub_same (m : positive) (e : Z) :
  sub (S754_finite false m e) (S754_finite false m e) = pos_zero.
Proof.
  unfold sub. cbn [SFsub cond_Zopp]. rewrite Z.sub_diag. reflexivity.
Qed.

Lemma price_change_formula (s : Game.stock) front previous last :
  Game.price_history s = Some (front ++ [previous; last]) ->
  Game.calculatePriceChange s =
    mul (div (sub (Game.current_price s) previous) previous) hundred.
Proof.
  intros Hh. unfold Game.calculatePriceChange. rewrite Hh, num_of_Z_100.
  assert (Hlen : length (front ++ [previous; last]) = (length front + 2)%nat)
    by (rewrite length_app; reflexivity).
  rewrite Hlen.
  replace (length front + 2 <? 2)%nat with false
    by (symmetry; apply Nat.ltb_ge; lia).
  replace (length front + 2 - 2)%nat with (length front + 0)%nat by lia.
  rewrite lookup_app_r by lia.
  replace (length front + 0 - length front)%nat with 0%nat by lia.
  reflexivity.
Qed.

Lemma sign_false_not_below_zero (x : jsnum) :
  View.sign_is false x = true -> lt x pos_zero = false.
Proof. destruct x as [[] | [] | | [] m e]; cbn; intros H; try discriminate H; reflexivity. Qed.

Lemma sign_true_not_above_zero (x : jsnum) :
  View.sign_is true x = true -> gt x pos_zero = false.
Proof. destruct x as [[] | [] | | [] m e]; cbn; intros H; try discriminate H; reflexivity. Qed.

(** X12. For a stock with at least two recorded prices, a previous
    (second-to-last) price and a current price that are binary64
    values above zero: when the current price equals the previous one
    the change is 0, its class is ['neutral'] and no sign is written;
    when the price went up the change is not below zero, so the class
    is never ['negative']; when it went down the change is not above
    zero, so the class is never ['positive'] and no ['+'] is
    written. *)
Theorem price_change_class_follows_direction
    (s : Game.stock) (front : list jsnum) (previous last : jsnum) :
  Game.price_history s = Some (front ++ [previous; last]) ->
  is_positive previous = true ->
  is_positive (Game.current_price s) = true ->
  valid_binary prec emax previous = true ->
  valid_binary prec emax (Game.current_price s) = true ->
  (Game.current_price s = previous ->
   Game.calculatePriceChange s = num_of_Z 0 /\
   View.changeClass s = "neutral" /\ View.changePrefix s = "") /\
  (lt previous (Game.current_price s) = true ->
   lt (Game.calculatePriceChange s) (num_of_Z 0) = false /\
   View.changeClass s <> "negative") /\
  (lt (Game.current_price s) previous = true ->
   gt (Game.calculatePriceChange s) (num_of_Z 0) = false /\
   View.changeClass s <> "positive" /\ View.changePrefix s = "").
Proof.
  intros Hh Hpp Hpc Hvp Hvc.
  pose proof (price_change_formula s front previous last Hh) as Hcalc.
  unfold View.changeClass, View.changePrefix. cbn zeta.
  rewrite num_of_Z_0, Hcalc.
  destruct previous as [sp | sp | | [|] mp ep]; try discriminate Hpp.
  destruct (Game.current_price s) as [sc | sc | | [|] mc ec]; try discriminate Hpc.
  destruct (sub_sign_of_order mc mp ec ep Hvc Hvp) as [Hup Hdown].
  split; [| split].
  - intros [= -> ->]. rewrite sub_same. repeat split.
  - intros Hlt. specialize (Hup Hlt).
    apply (SFdiv_positive_sign prec emax false _ mp ep) in Hup.
    apply (SFmul_positive_sign prec emax false _ 7036874417766400 (-46)) in Hup.
    apply sign_false_not_below_zero in Hup.
    change (lt (mul (div (sub (S754_finite false mc ec) (S754_finite false mp ep))
                         (S754_finite false mp ep)) hundred) pos_zero = false)
      in Hup.
    split; [exact Hup |]. rewrite Hup.
    destruct (gt _ pos_zero); discriminate.
  - intros Hlt. specialize (Hdown Hlt).
    apply (SFdiv_positive_sign prec emax true _ mp ep) in Hdown.
    apply (SFmul_positive_sign prec emax true _ 7036874417766400 (-46)) in Hdown.
    apply sign_true_not_above_zero in Hdown.
    change (gt (mul (div (sub (S754_finite false mc ec) (S754_finite false mp ep))
                         (S754_finite false mp ep)) hundred) pos_zero = false)
      in Hdown.
    split; [exact Hdown |]. rewrite Hdown.
    split; [| reflexivity].
    destruct (lt _ pos_zero); discriminate.
Qed.

Lemma price_change_class_follows_direction_witness :
  let previous := Builtins.parseFloat "12.5" in
  let s := Game.Stock "ACME" "Acme" (Builtins.parseFloat "11")
             (Some [Builtins.parseFloat "10"; previous; Builtins.parseFloat "11"]) in
  lt (Game.current_price s) previous = true /\
  View.changeClass s <> "positive" /\ View.changePrefix s = "".
Proof.
  intros previous s.
  assert (Hlt : lt (Game.current_price s) previous = true) by reflexivity.
  split; [exact Hlt |].
  destruct (price_change_class_follows_direction s [Builtins.parseFloat "10"]
              previous (Builtins.parseFloat "11")
              eq_refl eq_refl eq_refl eq_refl eq_refl)
    as (_ & _ & Hdown).
  destruct (Hdown Hlt) as (_ & H1 & H2). split; [exact H1 | exact H2].
Defined.

(** ** What the server can rely on *)









(** ** Redrawing the cards *)

Lemma rendered_cards_unselected (hand : list View.card) :
  List.filter Game.item_selected
    (map (fun c => Game.Item (View.card_id c) false) hand) = [].
Proof. induction hand as [| c rest IH]; cbn; auto. Qed.

(** X14. [getCurrentPlayer] finds a player only when a snapshot has
    arrived and [playerId] is a non-empty string, and then the first
    player of the snapshot with that id; with [playerId] null, as the
    constructor sets it, it finds none.  [updateCards] then shows the
    cards of that player in order, or no card at all when there is no
    such player or the player has no [cards]; no shown card carries
    the class [selected], and [selectedCard] is not touched, so
    [useCard] sends after the redraw what it would have sent
    before. *)
Theorem updateCards_redraws_without_selection
    (g : Game.game) (gameState : option (list View.player))
    (playerId : option string) :
  let g1 := View.updateCards g gameState playerId in
  Game.selectedCard g1 = Game.selectedCard g /\
  Game.useCard g1 = Game.useCard g /\
  List.filter Game.item_selected (Game.card_items g1) = [] /\
  (forall p, View.getCurrentPlayer gameState playerId = Some p ->
     playerId = Some (View.player_id p) /\ View.player_id p <> "" /\
     exists players, gameState = Some players /\ In p players) /\
  (forall p hand, View.getCurrentPlayer gameState playerId = Some p ->
     View.cards p = Some hand ->
     map Game.item_id (Game.card_items g1) = map View.card_id hand) /\
  (View.getCurrentPlayer gameState playerId = None -> Game.card_items g1 = []) /\
  (playerId = None -> View.getCurrentPlayer gameState playerId = None).
Proof.
  cbn zeta. unfold View.updateCards.
  split; [| split; [| split; [| split; [| split; [| split]]]]].
  - destruct (View.getCurrentPlayer gameState playerId) as [p |];
      [destruct (View.cards p) |]; reflexivity.
  - destruct (View.getCurrentPlayer gameState playerId) as [p |];
      [destruct (View.cards p) |]; reflexivity.
  - destruct (View.getCurrentPlayer gameState playerId) as [p |];
      [destruct (View.cards p) as [hand |] |]; cbn; try reflexivity.
    apply rendered_cards_unselected.
  - intros p Hp. unfold View.getCurrentPlayer in Hp.
    destruct gameState as [players |]; [| discriminate Hp].
    destruct (Game.truthy_nullable playerId) eqn:Hid; cbn [negb] in Hp;
      [| discriminate Hp].
    apply truthy_nullable_iff in Hid as (pid & -> & Hne). cbn in Hp.
    apply find_some in Hp as [Hin Heq]. apply String.eqb_eq in Heq.
    rewrite Heq. split; [reflexivity |]. split; [exact Hne |]. eauto.
  - intros p hand Hp Hhand. rewrite Hp, Hhand. cbn.
    rewrite map_map. reflexivity.
  - intros Hnone. rewrite Hnone. reflexivity.
  - intros ->. unfold View.getCurrentPlayer.
    destruct gameState; reflexivity.
Qed.

Lemma updateCards_redraws_without_selection_witness :
  let ann := View.Player "p1" "Ann"
               (Some [View.Card "c1" "Rumour"; View.Card "c2" "Audit"]) in
  let g := Game.StockUndercoverGame "room1" None (Some "c2") None "" "" "" ""
             [Game.Item "c2" true] [] in
  View.getCurrentPlayer (Some [ann]) (Some "p1") = Some ann /\
  View.cards ann = Some [View.Card "c1" "Rumour"; View.Card "c2" "Audit"] /\
  map Game.item_id
      (Game.card_items (View.updateCards g (Some [ann]) (Some "p1")))
    = ["c1"; "c2"].
Proof.
  intros ann g. split; [reflexivity |]. split; [reflexivity |].
  destruct (updateCards_redraws_without_selection g (Some [ann]) (Some "p1"))
    as (_ & _ & _ & _ & H & _).
  exact (H ann _ eq_refl eq_refl).
Defined.
